(** * RediGo: the RESP stream parser, the request handler and the TCP server

    A shallow embedding of [resp/parser/parser.go] ([parse0], [readLine],
    [readBody], [parseMultiBulkHeader], [parseBulkHeader],
    [parseSingleLineReply], [readState.finished]), of the request loop
    [RespHandler.Handle] of [resp/handler/handler.go], and of the accept loop
    [ListenAndServe] of [tcp/server.go]. *)

From Stdlib Require Import List String Ascii ZArith Bool Lia.
From Stdlib Require Import Init.Byte Strings.Byte Relations.Relation_Operators.
Import ListNotations.
Open Scope Z_scope.

(** ** Bytes *)

Definition bytes := list byte.

Definition CR : byte := x0d.
Definition LF : byte := x0a.
Definition crlf : bytes := [CR; LF].

(** Byte strings written as string literals. *)
Definition bs (s : string) : bytes := list_byte_of_string s.

Definition blen (l : bytes) : Z := Z.of_nat (List.length l).

(** Go's bounds-checked [l[i]]: [None] is an index-out-of-range panic. *)
Definition at_ (l : bytes) (i : Z) : option byte :=
  if (0 <=? i) && (i <? blen l) then nth_error l (Z.to_nat i) else None.

(** Go's bounds-checked [l[lo:hi]]: [None] is a slice-bounds panic. *)
Definition slice (l : bytes) (lo hi : Z) : option bytes :=
  if (0 <=? lo) && (lo <=? hi) && (hi <=? blen l)
  then Some (firstn (Z.to_nat (hi - lo)) (skipn (Z.to_nat lo) l))
  else None.

Definition byte_eqb (a b : byte) : bool := Byte.eqb a b.

Fixpoint bytes_eqb (a b : bytes) : bool :=
  match a, b with
  | [], [] => true
  | x :: a', y :: b' => byte_eqb x y && bytes_eqb a' b'
  | _, _ => false
  end.

(** [strings.TrimSuffix(s, "\r\n")]. *)
Definition trim_crlf (l : bytes) : bytes :=
  let n := List.length l in
  if (2 <=? n)%nat && bytes_eqb (skipn (n - 2) l) crlf
  then firstn (n - 2) l else l.

(** ** [strconv.ParseUint] and [strconv.ParseInt] in base 10 *)

Definition is_digit (c : byte) : bool :=
  let n := Byte.to_nat c in (48 <=? n)%nat && (n <=? 57)%nat.

Definition digit_val (c : byte) : Z := Z.of_nat (Byte.to_nat c) - 48.

Fixpoint digits_val (acc : Z) (s : bytes) : option Z :=
  match s with
  | [] => Some acc
  | c :: s' => if is_digit c then digits_val (acc * 10 + digit_val c) s' else None
  end.

(** [strconv.ParseUint(s, 10, bits)]: [None] is a syntax or range error. *)
Definition ParseUint (s : bytes) (bits : Z) : option Z :=
  match s with
  | [] => None
  | _ => match digits_val 0 s with
         | Some v => if v <? 2 ^ bits then Some v else None
         | None => None
         end
  end.

(** [strconv.ParseInt(s, 10, 64)]: an optional sign, then [ParseUint] of
    the rest, then the signed range check. *)
Definition ParseInt64 (s : bytes) : option Z :=
  match s with
  | [] => None
  | c :: s' =>
      let '(neg, body) :=
        if byte_eqb c "+"%byte then (false, s')
        else if byte_eqb c "-"%byte then (true, s')
        else (false, s) in
      match ParseUint body 64 with
      | None => None
      | Some un =>
          if neg then (if un <=? 2 ^ 63 then Some (- un) else None)
          else (if un <=? 2 ^ 63 - 1 then Some un else None)
      end
  end.

(** Two's complement wrap-around of an [int64] result. *)
Definition wrap64 (z : Z) : Z := (z + 2 ^ 63) mod 2 ^ 64 - 2 ^ 63.

(** ** Replies, errors and payloads *)

Inductive Reply :=
| StatusReply (s : bytes)
| ErrReply (s : bytes)
| IntReply (v : Z)
| BulkReply (arg : bytes)
| NullBulkReply
| MultiBulkReply (args : list bytes)
| EmptyMultiBulkReply.

(** The errors a [Payload] can carry: the two [io] sentinels, any other
    read error of the connection (by its [Error()] text), and the parser's
    own ["protocol error: " + msg]. *)
Inductive GoError :=
| EOF
| ErrUnexpectedEOF
| ReadError (text : bytes)
| ProtocolError (msg : bytes).

Definition Error (e : GoError) : bytes :=
  match e with
  | EOF => bs "EOF"
  | ErrUnexpectedEOF => bs "unexpected EOF"
  | ReadError t => t
  | ProtocolError m => bs "protocol error: " ++ m
  end.

Record Payload := { Data : option Reply; Err : option GoError }.

Definition data_payload (r : Reply) : Payload := {| Data := Some r; Err := None |}.
Definition err_payload (e : GoError) : Payload := {| Data := None; Err := Some e |}.

(** ** The parser state *)

Record readState := {
  readingMultiLine : bool;
  expectedArgsCount : Z;
  msgType : byte;
  args : list bytes;
  bulkLen : Z
}.

Definition zero_state : readState :=
  {| readingMultiLine := false; expectedArgsCount := 0; msgType := x00;
     args := []; bulkLen := 0 |}.

Definition set_bulkLen (s : readState) (n : Z) : readState :=
  {| readingMultiLine := readingMultiLine s; expectedArgsCount := expectedArgsCount s;
     msgType := msgType s; args := args s; bulkLen := n |}.

Definition set_args (s : readState) (a : list bytes) : readState :=
  {| readingMultiLine := readingMultiLine s; expectedArgsCount := expectedArgsCount s;
     msgType := msgType s; args := a; bulkLen := bulkLen s |}.

(** [readState.finished]. *)
Definition finished (s : readState) : bool :=
  (0 <? expectedArgsCount s) && (Z.of_nat (List.length (args s)) =? expectedArgsCount s).

(** Results of the parser's helper functions: a value, a returned [error],
    or a run-time panic (index or slice out of range). *)
Inductive Go (A : Type) :=
| Ret (a : A)
| Throw (e : GoError)
| Panic.
Arguments Ret {A} a.
Arguments Throw {A} e.
Arguments Panic {A}.

(** ** [bufio.Reader.ReadBytes('\n')] and [io.ReadFull]

    The connection is a finite byte sequence [inp]; once it is exhausted,
    a read returns the error [e_end] ([EOF] for an orderly close, or a
    [ReadError] of the socket). *)

Fixpoint ReadBytes_LF (inp : bytes) : option (bytes * bytes) :=
  match inp with
  | [] => None
  | c :: r =>
      if byte_eqb c LF then Some ([c], r)
      else match ReadBytes_LF r with
           | Some (l, r') => Some (c :: l, r')
           | None => None
           end
  end.

(** [io.ReadFull] of [n] bytes: [ErrUnexpectedEOF] when [EOF] comes after
    some but not all bytes. *)
Definition ReadFull (n : nat) (inp : bytes) (e_end : GoError) : Go (bytes * bytes) :=
  if (n <=? List.length inp)%nat then Ret (firstn n inp, skipn n inp)
  else match inp with
       | [] => Throw e_end
       | _ => Throw (match e_end with EOF => ErrUnexpectedEOF | _ => e_end end)
       end.

(** Outcome of [readLine]: a line, an I/O error ([ioErr = true]), a
    protocol error ([ioErr = false]) with the bytes consumed, or a panic. *)
Inductive LineRes :=
| LineOk (msg : bytes) (st : readState) (rest : bytes)
| LineIOErr (e : GoError)
| LineProtoErr (msg : bytes) (rest : bytes)
| LinePanic.

(** The largest allocation of the Go runtime on 64-bit Linux ([maxAlloc],
    [1 << 48] bytes): [make([]byte, n)] panics with [len out of range] when
    [n < 0] or [n > maxAlloc]. Below it the buffer is assumed to be
    allocatable. *)
Definition maxAlloc : Z := 2 ^ 48.

(** [readLine]. *)
Definition readLine (st : readState) (inp : bytes) (e_end : GoError) : LineRes :=
  if bulkLen st =? 0 then
    match ReadBytes_LF inp with
    | None => LineIOErr e_end
    | Some (msg, rest) =>
        if blen msg =? 0 then LineProtoErr msg rest
        else match at_ msg (blen msg - 2) with
             | None => LinePanic
             | Some c => if negb (byte_eqb c CR) then LineProtoErr msg rest
                         else LineOk msg st rest
             end
    end
  else
    let n := wrap64 (bulkLen st + 2) in
    if (n <? 0) || (maxAlloc <? n) then LinePanic (* make([]byte, n): len out of range *)
    else match ReadFull (Z.to_nat n) inp e_end with
         | Panic => LinePanic
         | Throw e => LineIOErr e
         | Ret (msg, rest) =>
             if blen msg =? 0 then LineProtoErr msg rest
             else match at_ msg (blen msg - 2) with
                  | None => LinePanic
                  | Some c =>
                      if negb (byte_eqb c CR) then LineProtoErr msg rest
                      else match at_ msg (blen msg - 1) with
                           | None => LinePanic
                           | Some d =>
                               if negb (byte_eqb d LF) then LineProtoErr msg rest
                               else LineOk msg (set_bulkLen st 0) rest
                           end
                  end
         end.

(** [parseMultiBulkHeader]. *)
Definition parseMultiBulkHeader (msg : bytes) (st : readState) : Go readState :=
  match slice msg 1 (blen msg - 2) with
  | None => Panic
  | Some digits =>
      match ParseUint digits 32 with
      | None => Throw (ProtocolError msg)
      | Some expectedLine =>
          if expectedLine =? 0 then
            Ret {| readingMultiLine := readingMultiLine st; expectedArgsCount := 0;
                   msgType := msgType st; args := args st; bulkLen := bulkLen st |}
          else match at_ msg 0 with
               | None => Panic
               | Some t =>
                   Ret {| readingMultiLine := true; expectedArgsCount := expectedLine;
                          msgType := t; args := []; bulkLen := bulkLen st |}
               end
      end
  end.

(** [parseBulkHeader]. *)
Definition parseBulkHeader (msg : bytes) (st : readState) : Go readState :=
  match slice msg 1 (blen msg - 2) with
  | None => Panic
  | Some digits =>
      match ParseInt64 digits with
      | None => Throw (ProtocolError msg)
      | Some n =>
          if n =? -1 then Ret (set_bulkLen st n)
          else if 0 <? n then
            match at_ msg 0 with
            | None => Panic
            | Some t =>
                Ret {| readingMultiLine := true; expectedArgsCount := 1;
                       msgType := t; args := []; bulkLen := n |}
            end
          else Throw (ProtocolError msg)
      end
  end.

(** [parseSingleLineReply]: [Ret None] is the nil reply of an unknown tag. *)
Definition parseSingleLineReply (msg : bytes) : Go (option Reply) :=
  let str := trim_crlf msg in
  match at_ msg 0 with
  | None => Panic
  | Some t =>
      match slice str 1 (blen str) with
      | None => if byte_eqb t "+"%byte || byte_eqb t "-"%byte || byte_eqb t ":"%byte
                then Panic else Ret None
      | Some s1 =>
          if byte_eqb t "+"%byte then Ret (Some (StatusReply s1))
          else if byte_eqb t "-"%byte then Ret (Some (ErrReply s1))
          else if byte_eqb t ":"%byte then
            match ParseInt64 s1 with
            | None => Throw (ProtocolError msg)
            | Some v => Ret (Some (IntReply v))
            end
          else Ret None
      end
  end.

(** [readBody]. *)
Definition readBody (msg : bytes) (st : readState) : Go readState :=
  match slice msg 0 (blen msg - 2) with
  | None => Panic
  | Some line =>
      match at_ line 0 with
      | None => Panic
      | Some c =>
          if byte_eqb c "$"%byte then
            match slice line 1 (blen line) with
            | None => Panic
            | Some digits =>
                match ParseInt64 digits with
                | None => Throw (ProtocolError msg)
                | Some n =>
                    if n <=? 0 then
                      (* null bulk in multi bulks *)
                      Ret (set_bulkLen (set_args st (args st ++ [[]])) 0)
                    else Ret (set_bulkLen st n)
                end
            end
          else Ret (set_args st (args st ++ [line]))
      end
  end.

(** ** One iteration of the [parse0] loop *)

(** An iteration either sends at most one payload and continues with a new
    state and the rest of the input, or sends the final I/O-error payload and
    closes the channel, or panics (the deferred [recover] logs the stack and
    the goroutine returns without closing the channel). *)
Inductive Step :=
| Continue (out : option Payload) (st : readState) (rest : bytes)
| Stop (p : Payload)
| Crash.

Definition proto_err (msg : bytes) : option Payload :=
  Some (err_payload (ProtocolError msg)).

Definition parse0_step (st : readState) (inp : bytes) (e_end : GoError) : Step :=
  match readLine st inp e_end with
  | LinePanic => Crash
  | LineIOErr e => Stop (err_payload e)
  | LineProtoErr msg rest => Continue (proto_err msg) zero_state rest
  | LineOk msg st1 rest =>
      if negb (readingMultiLine st1) then
        match at_ msg 0 with
        | None => Crash
        | Some t =>
            if byte_eqb t "*"%byte then
              match parseMultiBulkHeader msg st1 with
              | Panic => Crash
              | Throw _ => Continue (proto_err msg) zero_state rest
              | Ret st2 =>
                  if expectedArgsCount st2 =? 0
                  then Continue (Some (data_payload EmptyMultiBulkReply)) zero_state rest
                  else Continue None st2 rest
              end
            else if byte_eqb t "$"%byte then
              match parseBulkHeader msg st1 with
              | Panic => Crash
              | Throw _ => Continue (proto_err msg) zero_state rest
              | Ret st2 =>
                  if bulkLen st2 =? -1
                  then Continue (Some (data_payload NullBulkReply)) zero_state rest
                  else Continue None st2 rest
              end
            else
              match parseSingleLineReply msg with
              | Panic => Crash
              | Throw e => Continue (Some {| Data := None; Err := Some e |}) zero_state rest
              | Ret r => Continue (Some {| Data := r; Err := None |}) zero_state rest
              end
        end
      else
        match readBody msg st1 with
        | Panic => Crash
        | Throw _ => Continue (proto_err msg) zero_state rest
        | Ret st2 =>
            if finished st2 then
              if byte_eqb (msgType st2) "*"%byte then
                Continue (Some (data_payload (MultiBulkReply (args st2)))) zero_state rest
              else if byte_eqb (msgType st2) "$"%byte then
                match args st2 with
                | a :: _ => Continue (Some (data_payload (BulkReply a))) zero_state rest
                | [] => Crash
                end
              else Continue (Some {| Data := None; Err := None |}) zero_state rest
            else Continue None st2 rest
        end
  end.

(** How the payload sequence ends. *)
Inductive Ending :=
| ChannelClosed   (* after the I/O-error payload: [close(ch)] *)
| Panicked        (* recovered panic: the channel is never closed *)
| OutOfFuel.

Definition cons_opt {A} (o : option A) (l : list A) : list A :=
  match o with Some a => a :: l | None => l end.

(** The [for] loop of [parse0], run for at most [fuel] iterations. *)
Fixpoint parse0_loop (fuel : nat) (st : readState) (inp : bytes) (e_end : GoError)
  : list Payload * Ending :=
  match fuel with
  | O => ([], OutOfFuel)
  | S f =>
      match parse0_step st inp e_end with
      | Crash => ([], Panicked)
      | Stop p => ([p], ChannelClosed)
      | Continue o st' rest =>
          let '(ps, en) := parse0_loop f st' rest e_end in (cons_opt o ps, en)
      end
  end.

(** [parse0] on a connection that delivers [inp] and then fails with
    [e_end]; every iteration but one after a reset consumes input, so the
    fuel is never the limit. *)
Definition parse0 (inp : bytes) (e_end : GoError) : list Payload * Ending :=
  parse0_loop (2 * List.length inp + 2) zero_state inp e_end.

(** Test inputs: a string literal in which each [|] stands for [\r\n]. *)
Definition wire (s : string) : bytes :=
  List.concat (List.map (fun c => if Ascii.eqb c "|"%char then crlf else [byte_of_ascii c])
                        (list_ascii_of_string s)).

Example ex_ping : parse0 (wire "*1|$4|PING|") EOF =
  ([data_payload (MultiBulkReply [bs "PING"]); err_payload EOF], ChannelClosed).
Proof. vm_compute. reflexivity. Qed.

(** ** [RespHandler.Handle] *)

Section Handler.

(** [h.db.Exec(client, args)]: the storage engine is a collaborator. *)
Variable exec : list bytes -> option Reply.
(** [client.RemoteAddr().String()]. *)
Variable remote_addr : bytes.

Inductive Event :=
| ConnClose                 (* conn.Close() / client.Close() *)
| Register                  (* h.activeConn.Store(client, 1) *)
| StartParser               (* parser.ParseStream(conn) *)
| DbAfterClientClose        (* h.db.AfterClientClose(client) *)
| Deregister                (* h.activeConn.Delete(client) *)
| LogInfo (msg : bytes)
| LogError (msg : bytes)
| WriteReply (r : Reply)    (* client.Write(r.ToBytes()) *)
| WriteRaw (b : bytes)      (* client.Write(unknownErrReplyBytes) *)
| Exec (a : list bytes)
| Return
| BlockedForever.           (* [range ch] on a channel nobody closes *)

Definition unknownErrReplyBytes : bytes := bs "-ERR unknown" ++ crlf.

(** [closeClient]. *)
Definition closeClient : list Event := [ConnClose; DbAfterClientClose; Deregister].

Definition closed_log : Event := LogInfo (bs "connection closed: " ++ remote_addr).

Fixpoint is_prefix (p l : bytes) : bool :=
  match p, l with
  | [], _ => true
  | a :: p', b :: l' => byte_eqb a b && is_prefix p' l'
  | _ :: _, [] => false
  end.

(** [strings.Contains(s, sub)]. *)
Fixpoint contains (s sub : bytes) : bool :=
  is_prefix sub s || match s with [] => false | _ :: s' => contains s' sub end.

(** The test of [Handle] for a connection that is gone. *)
Definition is_conn_closed (e : GoError) : bool :=
  match e with
  | EOF | ErrUnexpectedEOF => true
  | _ => contains (Error e) (bs "use of closed network connection")
  end.

(** Results of successive [client.Write] calls ([true]: no error);
    writes beyond the list succeed. *)
Definition next_write (ws : list bool) : bool * list bool :=
  match ws with [] => (true, []) | w :: ws' => (w, ws') end.

(** The [for payload := range ch] loop over the parser's output [ps], which
    ends as [en] says. *)
Fixpoint handle_loop (ps : list Payload) (en : Ending) (ws : list bool) : list Event :=
  match ps with
  | [] => match en with ChannelClosed => [Return] | _ => [BlockedForever] end
  | p :: ps' =>
      match Err p with
      | Some e =>
          if is_conn_closed e then closeClient ++ [closed_log; Return]
          else
            let '(ok, ws') := next_write ws in
            WriteReply (ErrReply (Error e)) ::
              (if ok then handle_loop ps' en ws'
               else closeClient ++ [closed_log; Return])
      | None =>
          match Data p with
          | None => LogError (bs "empty payload") :: handle_loop ps' en ws
          | Some (MultiBulkReply a) =>
              Exec a ::
                (match exec a with
                 | Some r => WriteReply r
                 | None => WriteRaw unknownErrReplyBytes
                 end) :: handle_loop ps' en (snd (next_write ws))
          | Some _ => LogError (bs "require multi bulk reply") :: handle_loop ps' en ws
          end
      end
  end.

(** [Handle], given the value of [h.closing.Get()] and what the parser
    started on the connection produces. *)
Definition Handle (closing : bool) (ps : list Payload) (en : Ending) (ws : list bool)
  : list Event :=
  (if closing then [ConnClose] else []) ++
  [Register; StartParser] ++ handle_loop ps en ws.

End Handler.

(** ** [ListenAndServe] (tcp/server.go, lines 48-80)

    The goroutines of the server interleave: the accept loop, the
    supervisor that waits on [closeChan], and one task per accepted
    connection. A state of the server records the listener, the
    supervisor's progress, the accept loop, the spawned tasks, the counter
    of the [sync.WaitGroup] [waitDone], and whether [ListenAndServe] has
    returned. Each goroutine action is one step. The file also holds an
    older [ListenAndServe] (lines 110-126) with no shutdown handling and no
    WaitGroup; the model follows the complete one. *)

Inductive TaskStatus := Running | Done.

Record Server := {
  lopen : bool;          (* the listener is open *)
  notified : bool;       (* the supervisor has received from closeChan *)
  sup_closed : bool;     (* the supervisor has closed listener and handler *)
  accepting : bool;      (* the accept loop has not broken out *)
  tasks : list TaskStatus;
  waitDone : nat;        (* the WaitGroup counter *)
  returned : bool
}.

Definition srv_init : Server :=
  {| lopen := true; notified := false; sup_closed := false; accepting := true;
     tasks := []; waitDone := 0%nat; returned := false |}.

Definition mark_done (l : list TaskStatus) (i : nat) : list TaskStatus :=
  firstn i l ++ Done :: skipn (S i) l.

Inductive srv_step : Server -> Server -> Prop :=
(** [<-closeChan] in the supervisor goroutine. *)
| step_notify : forall s,
    notified s = false ->
    srv_step s {| lopen := lopen s; notified := true; sup_closed := sup_closed s;
                  accepting := accepting s; tasks := tasks s; waitDone := waitDone s;
                  returned := returned s |}
(** [listener.Close(); handler.Close()] in the supervisor goroutine. *)
| step_sup_close : forall s,
    notified s = true -> sup_closed s = false ->
    srv_step s {| lopen := false; notified := true; sup_closed := true;
                  accepting := accepting s; tasks := tasks s; waitDone := waitDone s;
                  returned := returned s |}
(** [listener.Accept()] returns a connection (only on an open listener):
    [waitDone.Add(1)] and [go handler.Handle(ctx, conn)]. *)
| step_accept : forall s,
    accepting s = true -> lopen s = true ->
    srv_step s {| lopen := true; notified := notified s; sup_closed := sup_closed s;
                  accepting := true; tasks := tasks s ++ [Running];
                  waitDone := S (waitDone s); returned := returned s |}
(** [listener.Accept()] returns an error (always so on a closed listener):
    [break]. *)
| step_accept_err : forall s,
    accepting s = true ->
    srv_step s {| lopen := lopen s; notified := notified s; sup_closed := sup_closed s;
                  accepting := false; tasks := tasks s; waitDone := waitDone s;
                  returned := returned s |}
(** A connection task's [handler.Handle] returns: [defer waitDone.Done()]. *)
| step_task_done : forall s i,
    nth_error (tasks s) i = Some Running ->
    srv_step s {| lopen := lopen s; notified := notified s; sup_closed := sup_closed s;
                  accepting := accepting s; tasks := mark_done (tasks s) i;
                  waitDone := pred (waitDone s); returned := returned s |}
(** [waitDone.Wait()] returns once the counter is zero; the deferred
    [listener.Close()] runs and [ListenAndServe] returns. *)
| step_return : forall s,
    accepting s = false -> waitDone s = 0%nat -> returned s = false ->
    srv_step s {| lopen := false; notified := notified s; sup_closed := sup_closed s;
                  accepting := false; tasks := tasks s; waitDone := 0%nat;
                  returned := true |}.

Definition srv_steps := clos_refl_trans_1n Server srv_step.

Definition srv_reachable (s : Server) : Prop := srv_steps srv_init s.

Definition count_running (l : list TaskStatus) : nat :=
  List.length (List.filter (fun t => match t with Running => true | Done => false end) l).

(** ** [EchoHandler.Handle] (the echo server of the [tcp] package)

    The connection delivers [inp] and then fails with [e_end]; the loop
    reads with [reader.ReadString('\n')] and writes each line back. *)

Inductive EchoEvent :=
| EConnClose              (* conn.Close() *)
| EStore                  (* handler.activeConn.Store(client, struct{}{}) *)
| EWaitAdd                (* client.Waiting.Add(1) *)
| EWrite (b : bytes)      (* conn.Write([]byte(msg)) *)
| EWaitDone               (* client.Waiting.Done() *)
| ELogClosed              (* logger.Info("Connection closed") *)
| EDelete                 (* handler.activeConn.Delete(client) *)
| EWarn (e : GoError)     (* logger.Warn(err) *)
| EReturn.

(** The [for] loop, run for at most [fuel] iterations; on a read error the
    bytes read before it are dropped. *)
Fixpoint echo_loop (fuel : nat) (inp : bytes) (e_end : GoError) : list EchoEvent :=
  match fuel with
  | O => []
  | S f =>
      match ReadBytes_LF inp with
      | None =>
          match e_end with
          | EOF => [ELogClosed; EDelete; EReturn]
          | _ => [EWarn e_end; EReturn]
          end
      | Some (msg, rest) => EWaitAdd :: EWrite msg :: EWaitDone :: echo_loop f rest e_end
      end
  end.

(** [Handle], given [handler.closing.Get()]; each iteration consumes a
    line, so [len(inp) + 1] iterations suffice. *)
Definition EchoHandle (closing : bool) (inp : bytes) (e_end : GoError) : list EchoEvent :=
  (if closing then [EConnClose] else []) ++
  EStore :: echo_loop (S (List.length inp)) inp e_end.

(** * Properties *)

(** ** Helper lemmas on the server *)

Lemma mark_done_length (l : list TaskStatus) (i : nat) :
  (i < List.length l)%nat -> List.length (mark_done l i) = List.length l.
Proof.
  intros Hi. unfold mark_done.
  rewrite length_app, length_firstn. cbn [List.length]. rewrite length_skipn. lia.
Qed.

Lemma count_running_app (l1 l2 : list TaskStatus) :
  count_running (l1 ++ l2) = (count_running l1 + count_running l2)%nat.
Proof. unfold count_running. rewrite filter_app, length_app. reflexivity. Qed.

Lemma count_running_cons (t : TaskStatus) (l : list TaskStatus) :
  count_running (t :: l) =
  ((match t with Running => 1 | Done => 0 end) + count_running l)%nat.
Proof. destruct t; reflexivity. Qed.

Lemma count_running_mark_done (l : list TaskStatus) (i : nat) :
  nth_error l i = Some Running ->
  count_running (mark_done l i) = pred (count_running l).
Proof.
  unfold mark_done. revert i.
  induction l as [|t l IH]; intros [|i] Hn; try discriminate.
  - cbn in Hn. injection Hn as ->. reflexivity.
  - cbn in Hn.
    change (firstn (S i) (t :: l) ++ Done :: skipn (S (S i)) (t :: l))
      with (t :: (firstn i l ++ Done :: skipn (S i) l)).
    assert (Hpos : (0 < count_running l)%nat).
    { apply nth_error_split in Hn. destruct Hn as (l1 & l2 & -> & _).
      rewrite count_running_app, count_running_cons. lia. }
    rewrite !count_running_cons, IH by exact Hn. destruct t; lia.
Qed.

Lemma count_running_zero (l : list TaskStatus) :
  count_running l = 0%nat -> Forall (fun t => t = Done) l.
Proof.
  induction l as [|t l IH]; intros H; constructor.
  - destruct t; [discriminate | reflexivity].
  - destruct t; [discriminate | apply IH; exact H].
Qed.

Lemma srv_step_counter (s s' : Server) :
  srv_step s s' -> waitDone s = count_running (tasks s) ->
  waitDone s' = count_running (tasks s').
Proof.
  intros Hs Hw. inversion Hs; subst; cbn [waitDone tasks]; auto; try congruence.
  - rewrite count_running_app, count_running_cons. cbn. lia.
  - rewrite count_running_mark_done by assumption. rewrite Hw. reflexivity.
Qed.

Lemma srv_reachable_counter (s : Server) :
  srv_reachable s -> waitDone s = count_running (tasks s).
Proof.
  unfold srv_reachable, srv_steps.
  assert (Gen : forall a b, clos_refl_trans_1n Server srv_step a b ->
                  waitDone a = count_running (tasks a) ->
                  waitDone b = count_running (tasks b)).
  { intros a b Hab. induction Hab as [|x y z Hxy Hyz IH]; intros Ha; auto.
    apply IH. eapply srv_step_counter; eauto. }
  intros H. apply (Gen srv_init); [exact H | reflexivity].
Qed.

Lemma srv_step_closed (s s' : Server) :
  srv_step s s' -> lopen s = false ->
  lopen s' = false /\ List.length (tasks s') = List.length (tasks s).
Proof.
  intros Hs Ho. inversion Hs; subst; simpl; try (split; auto; fail).
  - congruence.
  - split; auto. apply mark_done_length.
    apply nth_error_Some. congruence.
Qed.

Lemma srv_steps_closed (s s' : Server) :
  srv_steps s s' -> lopen s = false ->
  List.length (tasks s') = List.length (tasks s).
Proof.
  intros H. induction H as [|x y z Hxy Hyz IH]; intros Ho; auto.
  destruct (srv_step_closed x y Hxy Ho) as [Hy Hl].
  rewrite IH by exact Hy. exact Hl.
Qed.

(** ** Claims about the parser that are settled by evaluation *)


(** C4 (code_bug): a bare [\n] line makes [readLine] index [msg[-1]], and
    an empty line [\r\n] inside a Multi-Bulk makes [readBody] index
    [line[0]] of an empty slice; both panic, the deferred [recover] ends the
    goroutine, and no protocol-error unit is sent. *)
Theorem C4_short_lines_panic :
  readLine zero_state [LF] EOF = LinePanic /\
  parse0 [LF] EOF = ([], Panicked) /\
  parse0 (wire "*1||") EOF = ([], Panicked).
Proof. vm_compute. repeat split. Qed.

(** C5 (code_bug): after [+OK\r\n], the malformed line [\n] produces no
    protocol-error unit; the parser goroutine dies and the second [+OK\r\n]
    is never parsed, and the channel is never closed, so the handler's
    [range] loop blocks forever. *)
Theorem C5_format_error_ends_sequence :
  parse0 (wire "+OK|" ++ [LF] ++ wire "+OK|") EOF =
    ([data_payload (StatusReply (bs "OK"))], Panicked) /\
  handle_loop (fun _ => None) [] [data_payload (StatusReply (bs "OK"))] Panicked [] =
    [LogError (bs "require multi bulk reply"); BlockedForever].
Proof. vm_compute. split; reflexivity. Qed.

(** ** [readState.finished] *)

(** C9: [finished] holds iff [expectedArgsCount > 0] and
    [len(args) == expectedArgsCount]; so it is false when
    [expectedArgsCount == 0]. *)
Theorem C9_finished_iff (s : readState) :
  (finished s = true <->
   0 < expectedArgsCount s /\ Z.of_nat (List.length (args s)) = expectedArgsCount s) /\
  (expectedArgsCount s <> 0 \/ finished s = false).
Proof.
  unfold finished. split.
  - rewrite andb_true_iff, Z.ltb_lt, Z.eqb_eq. reflexivity.
  - destruct (Z.eq_dec (expectedArgsCount s) 0) as [H0|H0]; [right|left; exact H0].
    rewrite H0. reflexivity.
Qed.

(** ** [RespHandler.Handle] *)

(** C6 (code_bug): with the closing flag set, [Handle] closes the
    connection but does not return: it still stores the client in
    [activeConn] and starts a parser on the closed connection. *)
Theorem C6_closing_still_registers exec addr ps en ws :
  firstn 3 (Handle exec addr true ps en ws) = [ConnClose; Register; StartParser].
Proof. reflexivity. Qed.

(** C7: on a transport-error unit [e] of the parser, [Handle] closes the
    connection, notifies the storage engine, removes the client from
    [activeConn], logs and returns. For [io.EOF], [io.ErrUnexpectedEOF] and
    errors whose text contains ["use of closed network connection"] it does
    so at once. Any other read error (a reset, a timeout) is first answered
    with an Error reply; on a TCP connection whose read has failed that
    write fails too (the hypothesis [Hw]), and the handler then runs the
    same clean-up. *)
Theorem C7_transport_error_cleanup exec addr (e : GoError) (ps : list Payload) (en : Ending)
  (ws : list bool) (Hw : is_conn_closed e = false -> fst (next_write ws) = false) :
  handle_loop exec addr (err_payload e :: ps) en ws =
  (if is_conn_closed e then [] else [WriteReply (ErrReply (Error e))]) ++
  closeClient ++ [closed_log addr; Return].
Proof.
  cbn [handle_loop err_payload Err].
  destruct (is_conn_closed e) eqn:He; [reflexivity|].
  specialize (Hw eq_refl). destruct (next_write ws) as [ok ws'].
  cbn [fst] in Hw. subst ok. reflexivity.
Qed.

Lemma C7_transport_error_cleanup_witness :
  let e := ReadError (bs "read tcp 127.0.0.1:6379->127.0.0.1:50000: read: connection reset by peer") in
  (is_conn_closed e = false -> fst (next_write [false]) = false) /\
  handle_loop (fun _ => None) (bs "127.0.0.1:50000") [err_payload e] ChannelClosed [false] =
  [WriteReply (ErrReply (Error e))] ++ closeClient ++ [closed_log (bs "127.0.0.1:50000"); Return].
Proof.
  cbv zeta.
  assert (Hw : is_conn_closed (ReadError (bs "read tcp 127.0.0.1:6379->127.0.0.1:50000: read: connection reset by peer")) = false ->
               fst (next_write [false]) = false) by (intros _; reflexivity).
  split; [exact Hw|].
  exact (C7_transport_error_cleanup (fun _ => None) (bs "127.0.0.1:50000")
           (ReadError (bs "read tcp 127.0.0.1:6379->127.0.0.1:50000: read: connection reset by peer"))
           [] ChannelClosed [false] Hw).
Defined.

(** ** [ListenAndServe] *)

(** C8 (counterexample): between the supervisor's receipt of the shutdown
    notification and its [listener.Close()], the accept loop can still
    accept a connection. *)
Lemma C8_accept_after_notification :
  ~ (forall s s', srv_reachable s -> notified s = true -> srv_step s s' ->
                  List.length (tasks s') = List.length (tasks s)).
Proof.
  intros H.
  set (s1 := {| lopen := true; notified := true; sup_closed := false; accepting := true;
                tasks := []; waitDone := 0%nat; returned := false |}).
  assert (Hr : srv_reachable s1).
  { eapply rt1n_trans; [apply (step_notify srv_init); reflexivity | apply rt1n_refl]. }
  specialize (H s1 _ Hr eq_refl (step_accept s1 eq_refl eq_refl)).
  discriminate H.
Qed.

(** C8 (amended): once the listener is closed, no further connection is
    accepted, and [ListenAndServe] returns only when the WaitGroup counter
    is zero, that is when every spawned connection task has finished. *)
Theorem C8_shutdown_drains (s : Server) (Hr : srv_reachable s) :
  (forall s', srv_steps s s' -> lopen s = false ->
              List.length (tasks s') = List.length (tasks s)) /\
  (forall s', srv_step s s' -> returned s = false -> returned s' = true ->
              waitDone s' = 0%nat /\ Forall (fun t => t = Done) (tasks s')).
Proof.
  split.
  - intros s' Hs' Ho. exact (srv_steps_closed s s' Hs' Ho).
  - intros s' Hs Hret Hret'.
    pose proof (srv_reachable_counter s Hr) as Hw.
    inversion Hs; subst; cbn in *; try congruence.
    split; [reflexivity|]. apply count_running_zero. congruence.
Qed.

Definition srv_drained_example : Server :=
  {| lopen := false; notified := true; sup_closed := true; accepting := false;
     tasks := [Done]; waitDone := 0%nat; returned := false |}.

Lemma C8_shutdown_drains_witness :
  srv_reachable srv_drained_example /\
  (waitDone srv_drained_example = 0%nat /\
   Forall (fun t => t = Done) (tasks srv_drained_example)).
Proof.
  assert (Hr : srv_reachable srv_drained_example).
  { unfold srv_reachable, srv_steps.
    eapply rt1n_trans; [apply (step_accept srv_init); reflexivity|].
    eapply rt1n_trans; [apply step_notify; reflexivity|].
    eapply rt1n_trans; [apply step_sup_close; reflexivity|].
    eapply rt1n_trans; [apply step_accept_err; reflexivity|].
    eapply rt1n_trans; [apply (step_task_done _ 0); reflexivity|].
    apply rt1n_refl. }
  split; [exact Hr|].
  destruct (C8_shutdown_drains srv_drained_example Hr) as [_ H].
  exact (H _ (step_return srv_drained_example eq_refl eq_refl eq_refl) eq_refl eq_refl).
Defined.

(** ** Helper lemmas on bytes, slices and lines *)

Definition no_LF (l : bytes) : bool := forallb (fun c => negb (byte_eqb c LF)) l.

Lemma ReadBytes_LF_line (l rest : bytes) :
  no_LF l = true -> ReadBytes_LF (l ++ LF :: rest) = Some (l ++ [LF], rest).
Proof.
  induction l as [|c l IH]; intros H; [reflexivity|].
  simpl in H. apply andb_true_iff in H as [Hc Hl].
  simpl. apply negb_true_iff in Hc. rewrite Hc, IH by exact Hl. reflexivity.
Qed.

Lemma blen_app (l1 l2 : bytes) : blen (l1 ++ l2) = blen l1 + blen l2.
Proof. unfold blen. rewrite length_app. lia. Qed.

Lemma blen_cons (c : byte) (l : bytes) : blen (c :: l) = 1 + blen l.
Proof. unfold blen. cbn [List.length]. lia. Qed.

Lemma blen_nonneg (l : bytes) : 0 <= blen l.
Proof. unfold blen. lia. Qed.

Lemma at_app_2 (l : bytes) (a b : byte) :
  at_ (l ++ [a; b]) (blen (l ++ [a; b]) - 2) = Some a /\
  at_ (l ++ [a; b]) (blen (l ++ [a; b]) - 1) = Some b.
Proof.
  unfold at_. rewrite blen_app. pose proof (blen_nonneg l).
  assert (E : blen [a; b] = 2) by reflexivity. rewrite E.
  replace (blen l + 2 - 2) with (blen l) by lia.
  replace (blen l + 2 - 1) with (blen l + 1) by lia.
  split.
  - replace ((0 <=? blen l) && (blen l <? blen l + 2)) with true
      by (symmetry; apply andb_true_iff; split; [apply Z.leb_le | apply Z.ltb_lt]; lia).
    unfold blen. rewrite Nat2Z.id, nth_error_app2, Nat.sub_diag by lia. reflexivity.
  - replace ((0 <=? blen l + 1) && (blen l + 1 <? blen l + 2)) with true
      by (symmetry; apply andb_true_iff; split; [apply Z.leb_le | apply Z.ltb_lt]; lia).
    unfold blen. rewrite Z2Nat.inj_add, Nat2Z.id by lia.
    rewrite nth_error_app2 by lia.
    replace (List.length l + Z.to_nat 1 - List.length l)%nat with 1%nat by lia.
    reflexivity.
Qed.

Lemma at_0 (c : byte) (l : bytes) : at_ (c :: l) 0 = Some c.
Proof.
  unfold at_. rewrite blen_cons. pose proof (blen_nonneg l).
  replace ((0 <=? 0) && (0 <? 1 + blen l)) with true
    by (symmetry; apply andb_true_iff; split; [apply Z.leb_le | apply Z.ltb_lt]; lia).
  reflexivity.
Qed.

Lemma slice_drop_2 (l : bytes) (a b : byte) :
  slice (l ++ [a; b]) 0 (blen (l ++ [a; b]) - 2) = Some l.
Proof.
  unfold slice. rewrite blen_app. pose proof (blen_nonneg l).
  assert (E : blen [a; b] = 2) by reflexivity. rewrite E.
  replace (blen l + 2 - 2) with (blen l) by lia.
  replace ((0 <=? 0) && (0 <=? blen l) && (blen l <=? blen l + 2)) with true
    by (symmetry; rewrite !andb_true_iff; repeat split; apply Z.leb_le; lia).
  rewrite Z.sub_0_r. simpl skipn. unfold blen. rewrite Nat2Z.id.
  rewrite firstn_app, Nat.sub_diag, firstn_all. simpl. rewrite app_nil_r. reflexivity.
Qed.

Lemma slice_head_drop_2 (c : byte) (l : bytes) (a b : byte) :
  slice (c :: l ++ [a; b]) 1 (blen (c :: l ++ [a; b]) - 2) = Some l.
Proof.
  unfold slice. rewrite blen_cons, blen_app. pose proof (blen_nonneg l).
  assert (E : blen [a; b] = 2) by reflexivity. rewrite E.
  replace (1 + (blen l + 2) - 2) with (1 + blen l) by lia.
  replace ((0 <=? 1) && (1 <=? 1 + blen l) && (1 + blen l <=? 1 + (blen l + 2))) with true
    by (symmetry; rewrite !andb_true_iff; repeat split; apply Z.leb_le; lia).
  replace (1 + blen l - 1) with (blen l) by lia.
  simpl skipn. unfold blen. rewrite Nat2Z.id.
  rewrite firstn_app, Nat.sub_diag, firstn_all. simpl. rewrite app_nil_r. reflexivity.
Qed.

Lemma slice_tail (c : byte) (l : bytes) :
  slice (c :: l) 1 (blen (c :: l)) = Some l.
Proof.
  unfold slice. rewrite blen_cons. pose proof (blen_nonneg l).
  replace ((0 <=? 1) && (1 <=? 1 + blen l) && (1 + blen l <=? 1 + blen l)) with true
    by (symmetry; rewrite !andb_true_iff; repeat split; apply Z.leb_le; lia).
  replace (1 + blen l - 1) with (blen l) by lia.
  simpl skipn. unfold blen. rewrite Nat2Z.id, firstn_all. reflexivity.
Qed.

(** A line [l ++ \r\n] with no [\n] in [l] is read whole by [readLine]
    when no bulk body is pending. *)
Lemma readLine_line (st : readState) (l rest : bytes) (e : GoError) :
  bulkLen st = 0 -> no_LF l = true ->
  readLine st (l ++ crlf ++ rest) e = LineOk (l ++ crlf) st rest.
Proof.
  intros Hb Hl. unfold readLine. rewrite Hb. cbn [Z.eqb].
  assert (Hl' : no_LF (l ++ [CR]) = true).
  { unfold no_LF in *. rewrite forallb_app, Hl. reflexivity. }
  replace (l ++ crlf ++ rest) with ((l ++ [CR]) ++ LF :: rest)
    by (unfold crlf; rewrite <- app_assoc; reflexivity).
  rewrite ReadBytes_LF_line by exact Hl'.
  replace ((l ++ [CR]) ++ [LF]) with (l ++ [CR; LF]) by (rewrite <- app_assoc; reflexivity).
  destruct (at_app_2 l CR LF) as [H2 _].
  replace (blen (l ++ [CR; LF]) =? 0) with false
    by (symmetry; apply Z.eqb_neq; rewrite blen_app; pose proof (blen_nonneg l);
        cbn [blen List.length Z.of_nat]; simpl; lia).
  rewrite H2. reflexivity.
Qed.

Lemma is_digit_not_LF (c : byte) : is_digit c = true -> byte_eqb c LF = false.
Proof.
  intros Hd. destruct (byte_eqb c LF) eqn:E; [|reflexivity].
  apply byte_dec_bl in E. subst c. discriminate Hd.
Qed.

Lemma digits_val_digits (acc v : Z) (s : bytes) :
  digits_val acc s = Some v -> forallb is_digit s = true.
Proof.
  revert acc. induction s as [|c s IH]; intros acc H; [reflexivity|].
  simpl in *. destruct (is_digit c); [|discriminate]. simpl. eapply IH; exact H.
Qed.

Lemma ParseUint_digits (s : bytes) (bits v : Z) :
  ParseUint s bits = Some v -> forallb is_digit s = true.
Proof.
  unfold ParseUint. destruct s as [|c s']; [discriminate|].
  destruct (digits_val 0 (c :: s')) eqn:E; [|discriminate].
  intros _. eapply digits_val_digits; exact E.
Qed.

Lemma digits_no_LF (s : bytes) : forallb is_digit s = true -> no_LF s = true.
Proof.
  induction s as [|c s IH]; intros H; [reflexivity|].
  simpl in H. apply andb_true_iff in H as [Hc Hs].
  unfold no_LF. simpl. rewrite (is_digit_not_LF c Hc). apply IH. exact Hs.
Qed.

Lemma ParseInt64_no_LF (s : bytes) (n : Z) : ParseInt64 s = Some n -> no_LF s = true.
Proof.
  unfold ParseInt64. destruct s as [|c s']; [discriminate|].
  destruct (byte_eqb c "+"%byte) eqn:Ep; [|destruct (byte_eqb c "-"%byte) eqn:Em].
  - apply byte_dec_bl in Ep. subst c.
    destruct (ParseUint s' 64) eqn:E; [|discriminate]. intros _.
    apply ParseUint_digits, digits_no_LF in E. exact E.
  - apply byte_dec_bl in Em. subst c.
    destruct (ParseUint s' 64) eqn:E; [|discriminate]. intros _.
    apply ParseUint_digits, digits_no_LF in E. exact E.
  - destruct (ParseUint (c :: s') 64) eqn:E; [|discriminate]. intros _.
    apply ParseUint_digits, digits_no_LF in E. exact E.
Qed.

Definition emit (p : Payload) (r : list Payload * Ending) : list Payload * Ending :=
  (p :: fst r, snd r).

Lemma parse0_loop_continue (f : nat) (st st' : readState) (inp rest : bytes)
  (e : GoError) (o : option Payload) :
  parse0_step st inp e = Continue o st' rest ->
  parse0_loop (S f) st inp e =
  (cons_opt o (fst (parse0_loop f st' rest e)), snd (parse0_loop f st' rest e)).
Proof.
  intros H. simpl. rewrite H. destruct (parse0_loop f st' rest e). reflexivity.
Qed.

Lemma header_line_split (c : byte) (s rest : bytes) :
  (c :: s ++ crlf) ++ rest = (c :: s) ++ crlf ++ rest.
Proof. simpl. rewrite <- app_assoc. reflexivity. Qed.

Lemma no_LF_cons (c : byte) (s : bytes) :
  byte_eqb c LF = false -> no_LF s = true -> no_LF (c :: s) = true.
Proof. intros Hc Hs. unfold no_LF in *. simpl. rewrite Hc, Hs. reflexivity. Qed.

(** The [$<len>] header line read outside a Multi-Bulk. *)
Lemma step_bulk_header (s rest : bytes) (n : Z) (e : GoError) :
  ParseInt64 s = Some n ->
  parse0_step zero_state (("$"%byte :: s ++ crlf) ++ rest) e =
  if n =? -1 then Continue (Some (data_payload NullBulkReply)) zero_state rest
  else if 0 <? n then
    Continue None {| readingMultiLine := true; expectedArgsCount := 1;
                     msgType := "$"%byte; args := []; bulkLen := n |} rest
  else Continue (proto_err ("$"%byte :: s ++ crlf)) zero_state rest.
Proof.
  intros Hs. unfold parse0_step.
  rewrite header_line_split, readLine_line;
    [| reflexivity | exact (no_LF_cons "$"%byte s eq_refl (ParseInt64_no_LF s n Hs))].
  cbn [readingMultiLine zero_state negb].
  change ((("$"%byte :: s) ++ crlf)) with ("$"%byte :: s ++ [CR; LF]).
  rewrite at_0.
  change (byte_eqb "$"%byte "*"%byte) with false.
  change (byte_eqb "$"%byte "$"%byte) with true. cbv iota.
  unfold parseBulkHeader. rewrite slice_head_drop_2, Hs, at_0.
  destruct (n =? -1) eqn:E1; [cbn [bulkLen set_bulkLen]; rewrite E1; reflexivity|].
  destruct (0 <? n); cbn [bulkLen]; [|reflexivity].
  destruct (n =? -1); [discriminate|reflexivity].
Qed.

Lemma wrap64_small (z : Z) : - 2 ^ 63 <= z < 2 ^ 63 -> wrap64 z = z.
Proof.
  intros H. unfold wrap64. rewrite Z.mod_small; [lia|].
  change (2 ^ 64) with (2 ^ 63 * 2). lia.
Qed.

(** The body block of a pending bulk of length [n > 0]: [readLine] reads
    exactly [n + 2] bytes and checks the last two. *)
Lemma readLine_block (st : readState) (body rest : bytes) (a b : byte) (e : GoError) :
  0 < bulkLen st <= maxAlloc - 2 -> blen body = bulkLen st ->
  readLine st ((body ++ [a; b]) ++ rest) e =
  if negb (byte_eqb a CR) then LineProtoErr (body ++ [a; b]) rest
  else if negb (byte_eqb b LF) then LineProtoErr (body ++ [a; b]) rest
  else LineOk (body ++ [a; b]) (set_bulkLen st 0) rest.
Proof.
  intros Hn Hb0. assert (Hm : maxAlloc = 2 ^ 48) by reflexivity.
  set (blk := body ++ [a; b]).
  assert (Hb : blen blk = bulkLen st + 2) by (unfold blk; rewrite blen_app; change (blen [a; b]) with 2; lia).
  unfold readLine.
  replace (bulkLen st =? 0) with false by (symmetry; apply Z.eqb_neq; lia).
  rewrite wrap64_small by lia.
  replace (bulkLen st + 2 <? 0) with false by (symmetry; apply Z.ltb_ge; lia).
  replace (maxAlloc <? bulkLen st + 2) with false by (symmetry; apply Z.ltb_ge; lia).
  cbn [orb].
  unfold ReadFull.
  assert (Hl : Z.to_nat (bulkLen st + 2) = List.length blk) by (unfold blen in Hb; lia).
  rewrite Hl, length_app.
  replace (List.length blk <=? List.length blk + List.length rest)%nat with true
    by (symmetry; apply Nat.leb_le; lia).
  rewrite firstn_app, Nat.sub_diag, firstn_all, skipn_app, Nat.sub_diag, skipn_all.
  simpl firstn. simpl skipn. rewrite app_nil_r.
  replace (blen blk =? 0) with false by (symmetry; apply Z.eqb_neq; lia).
  destruct (at_app_2 body a b) as [H1 H2]. unfold blk. rewrite H1, H2.
  destruct (byte_eqb a CR); reflexivity.
Qed.

(** A bulk body [body ++ \r\n] with [len(body) = n] completes a top-level
    Bulk string, when [body] does not start with [$]. *)
Lemma step_bulk_body (body rest : bytes) (n : Z) (e : GoError) :
  0 < n <= maxAlloc - 2 -> blen body = n -> hd_error body <> Some "$"%byte ->
  parse0_step {| readingMultiLine := true; expectedArgsCount := 1;
                 msgType := "$"%byte; args := []; bulkLen := n |}
              (body ++ crlf ++ rest) e =
  Continue (Some (data_payload (BulkReply body))) zero_state rest.
Proof.
  intros Hn Hb Hd. unfold parse0_step.
  unfold crlf. rewrite app_assoc, readLine_block; cbn [bulkLen]; [| lia | lia].
  change (byte_eqb CR CR) with true. change (byte_eqb LF LF) with true. cbv iota.
  cbn [negb readingMultiLine set_bulkLen].
  unfold readBody. rewrite slice_drop_2.
  destruct body as [|c body']; [unfold blen in Hb; simpl in Hb; lia|].
  rewrite at_0.
  destruct (byte_eqb c "$"%byte) eqn:Ec.
  { apply byte_dec_bl in Ec. subst c. simpl in Hd. congruence. }
  reflexivity.
Qed.

(** A body block whose last two bytes are not [\r\n] is a protocol error. *)
Lemma step_bulk_bad_terminator (body rest : bytes) (a b : byte) (n : Z) (e : GoError) :
  0 < n <= maxAlloc - 2 -> blen body = n -> (a <> CR \/ b <> LF) ->
  parse0_step {| readingMultiLine := true; expectedArgsCount := 1;
                 msgType := "$"%byte; args := []; bulkLen := n |}
              (body ++ [a; b] ++ rest) e =
  Continue (proto_err (body ++ [a; b])) zero_state rest.
Proof.
  intros Hn Hb Hab. unfold parse0_step.
  rewrite app_assoc, readLine_block; cbn [bulkLen]; [| lia | lia].
  destruct (byte_eqb a CR) eqn:Ea; [|reflexivity].
  destruct (byte_eqb b LF) eqn:Eb; [|reflexivity].
  apply byte_dec_bl in Ea, Eb. destruct Hab; contradiction.
Qed.

Definition collected (st : readState) (rest : bytes) : Step :=
  if finished st then Continue (Some (data_payload (MultiBulkReply (args st)))) zero_state rest
  else Continue None st rest.

(** An element header [$<len>] with [len <= 0] inside a Multi-Bulk. *)
Lemma step_null_element (st : readState) (s rest : bytes) (n : Z) (e : GoError) :
  readingMultiLine st = true -> msgType st = "*"%byte -> bulkLen st = 0 ->
  ParseInt64 s = Some n -> n <= 0 ->
  parse0_step st (("$"%byte :: s ++ crlf) ++ rest) e =
  collected (set_bulkLen (set_args st (args st ++ [[]])) 0) rest.
Proof.
  intros Hr Hm Hb Hs Hn. unfold parse0_step.
  rewrite header_line_split, readLine_line;
    [| exact Hb | exact (no_LF_cons "$"%byte s eq_refl (ParseInt64_no_LF s n Hs))].
  rewrite Hr. cbn [negb].
  unfold readBody. unfold crlf. rewrite slice_drop_2, at_0.
  change (byte_eqb "$"%byte "$"%byte) with true. cbv iota.
  rewrite slice_tail, Hs.
  replace (n <=? 0) with true by (symmetry; apply Z.leb_le; exact Hn).
  unfold collected. destruct (finished _); [|reflexivity].
  cbn [msgType set_bulkLen set_args]. rewrite Hm. reflexivity.
Qed.

(** A line not starting with [$] inside a Multi-Bulk. *)
Lemma step_plain_element (st : readState) (c : byte) (l rest : bytes) (e : GoError) :
  readingMultiLine st = true -> msgType st = "*"%byte -> bulkLen st = 0 ->
  c <> "$"%byte -> no_LF (c :: l) = true ->
  parse0_step st ((c :: l) ++ crlf ++ rest) e =
  collected (set_args st (args st ++ [c :: l])) rest.
Proof.
  intros Hr Hm Hb Hc Hl. unfold parse0_step.
  rewrite readLine_line by assumption.
  rewrite Hr. cbn [negb].
  unfold readBody. unfold crlf. rewrite slice_drop_2, at_0.
  destruct (byte_eqb c "$"%byte) eqn:Ec.
  { apply byte_dec_bl in Ec. contradiction. }
  unfold collected. destruct (finished _); [|reflexivity].
  cbn [msgType set_args]. rewrite Hm. reflexivity.
Qed.

Lemma pair_fst_snd {A B} (r : A * B) : (fst r, snd r) = r.
Proof. destruct r; reflexivity. Qed.

(** ** Claims about the parser, in general *)

(** C2 (amended): outside a Multi-Bulk, a header [$<len>]: [len = -1]
    gives a Null-Bulk unit and no body is read; [len < -1] and [len = 0]
    give a protocol-error unit; for [len > 0] whose buffer of [len + 2]
    bytes is within the Go runtime's allocation limit [maxAlloc] (above it
    [make] panics) exactly [len] bytes and a
    mandatory [\r\n] are read as one block, and the Bulk unit holds those
    bytes verbatim (any byte, also CR, LF, NUL) when the body does not begin
    with [$]; a block not ending in [\r\n] gives a protocol-error unit. *)
Theorem C2_bulk_header (s : bytes) (n : Z) (e : GoError) (fuel : nat)
  (Hs : ParseInt64 s = Some n) :
  (forall rest, n = -1 ->
     parse0_loop (S fuel) zero_state (("$"%byte :: s ++ crlf) ++ rest) e =
     emit (data_payload NullBulkReply) (parse0_loop fuel zero_state rest e)) /\
  (forall rest, n < -1 \/ n = 0 ->
     parse0_loop (S fuel) zero_state (("$"%byte :: s ++ crlf) ++ rest) e =
     emit (err_payload (ProtocolError ("$"%byte :: s ++ crlf)))
          (parse0_loop fuel zero_state rest e)) /\
  (forall body rest, 0 < n <= maxAlloc - 2 -> blen body = n ->
     hd_error body <> Some "$"%byte ->
     parse0_loop (S (S fuel)) zero_state (("$"%byte :: s ++ crlf) ++ body ++ crlf ++ rest) e =
     emit (data_payload (BulkReply body)) (parse0_loop fuel zero_state rest e)) /\
  (forall body a b rest, 0 < n <= maxAlloc - 2 -> blen body = n -> (a <> CR \/ b <> LF) ->
     parse0_loop (S (S fuel)) zero_state (("$"%byte :: s ++ crlf) ++ body ++ [a; b] ++ rest) e =
     emit (err_payload (ProtocolError (body ++ [a; b]))) (parse0_loop fuel zero_state rest e)).
Proof.
  pose proof (step_bulk_header s) as Hh.
  split; [|split; [|split]].
  - intros rest Hn.
    assert (Hst : parse0_step zero_state (("$"%byte :: s ++ crlf) ++ rest) e =
                  Continue (Some (data_payload NullBulkReply)) zero_state rest)
      by (rewrite Hh with (n := n) by exact Hs; subst n; reflexivity).
    rewrite (parse0_loop_continue _ _ _ _ _ _ _ Hst). reflexivity.
  - intros rest Hn.
    assert (Hst : parse0_step zero_state (("$"%byte :: s ++ crlf) ++ rest) e =
                  Continue (proto_err ("$"%byte :: s ++ crlf)) zero_state rest).
    { rewrite Hh with (n := n) by exact Hs.
      replace (n =? -1) with false by (symmetry; apply Z.eqb_neq; lia).
      replace (0 <? n) with false by (symmetry; apply Z.ltb_ge; lia). reflexivity. }
    rewrite (parse0_loop_continue _ _ _ _ _ _ _ Hst). reflexivity.
  - intros body rest Hn Hb Hd.
    assert (Hst : parse0_step zero_state (("$"%byte :: s ++ crlf) ++ body ++ crlf ++ rest) e =
                  Continue None {| readingMultiLine := true; expectedArgsCount := 1;
                     msgType := "$"%byte; args := []; bulkLen := n |} (body ++ crlf ++ rest)).
    { rewrite Hh with (n := n) by exact Hs.
      replace (n =? -1) with false by (symmetry; apply Z.eqb_neq; lia).
      replace (0 <? n) with true by (symmetry; apply Z.ltb_lt; lia). reflexivity. }
    rewrite (parse0_loop_continue _ _ _ _ _ _ _ Hst). cbn [cons_opt].
    rewrite pair_fst_snd.
    rewrite (parse0_loop_continue _ _ _ _ _ _ _ (step_bulk_body body rest n e Hn Hb Hd)).
    reflexivity.
  - intros body a b rest Hn Hb Hab.
    assert (Hst : parse0_step zero_state (("$"%byte :: s ++ crlf) ++ body ++ [a; b] ++ rest) e =
                  Continue None {| readingMultiLine := true; expectedArgsCount := 1;
                     msgType := "$"%byte; args := []; bulkLen := n |} (body ++ [a; b] ++ rest)).
    { rewrite Hh with (n := n) by exact Hs.
      replace (n =? -1) with false by (symmetry; apply Z.eqb_neq; lia).
      replace (0 <? n) with true by (symmetry; apply Z.ltb_lt; lia). reflexivity. }
    rewrite (parse0_loop_continue _ _ _ _ _ _ _ Hst). cbn [cons_opt].
    rewrite pair_fst_snd.
    rewrite (parse0_loop_continue _ _ _ _ _ _ _
               (step_bulk_bad_terminator body rest a b n e Hn Hb Hab)).
    reflexivity.
Qed.

(** C2 (counterexample): the empty Bulk string [$0\r\n\r\n] is not read as
    a Bulk unit with no bytes: [parseBulkHeader] accepts only [len = -1] and
    [len > 0], so [$0] is a protocol error, and the following [\r\n] is then
    parsed as a single line with an unknown tag (a unit with neither data
    nor error). *)
Lemma C2_empty_bulk_rejected :
  parse0 (wire "$0||") EOF =
    ([err_payload (ProtocolError (wire "$0|")); {| Data := None; Err := None |};
      err_payload EOF], ChannelClosed).
Proof. vm_compute. reflexivity. Qed.

Lemma C2_bulk_header_witness :
  ParseInt64 (bs "3") = Some 3 /\
  parse0_loop 2 zero_state (("$"%byte :: bs "3" ++ crlf) ++ [x0d; x00; x0a] ++ crlf ++ []) EOF =
  emit (data_payload (BulkReply [x0d; x00; x0a])) (parse0_loop 0 zero_state [] EOF).
Proof.
  assert (Hs : ParseInt64 (bs "3") = Some 3) by reflexivity.
  split; [exact Hs|].
  destruct (C2_bulk_header (bs "3") 3 EOF 0 Hs) as (_ & _ & H & _).
  apply H; [unfold maxAlloc; lia | reflexivity | discriminate].
Defined.

(** C3: inside a Multi-Bulk being collected, an element header [$<len>]
    with [len <= 0] ([$-1\r\n], [$0\r\n], ...) adds an empty argument, sends
    no error, and the parser goes on with the rest of the input from the
    state so extended (sending the Multi-Bulk if it is now complete). *)
Theorem C3_null_element_in_multibulk (st : readState) (s rest : bytes) (n : Z)
  (e : GoError) (fuel : nat)
  (Hr : readingMultiLine st = true) (Hm : msgType st = "*"%byte) (Hb : bulkLen st = 0)
  (Hs : ParseInt64 s = Some n) (Hn : n <= 0) :
  parse0_loop (S fuel) st (("$"%byte :: s ++ crlf) ++ rest) e =
  let st' := set_bulkLen (set_args st (args st ++ [[]])) 0 in
  if finished st'
  then emit (data_payload (MultiBulkReply (args st'))) (parse0_loop fuel zero_state rest e)
  else parse0_loop fuel st' rest e.
Proof.
  pose proof (step_null_element st s rest n e Hr Hm Hb Hs Hn) as H.
  unfold collected in H. cbv zeta.
  destruct (finished _); rewrite (parse0_loop_continue _ _ _ _ _ _ _ H);
    [reflexivity | apply pair_fst_snd].
Qed.

Definition collecting_two : readState :=
  {| readingMultiLine := true; expectedArgsCount := 2; msgType := "*"%byte;
     args := []; bulkLen := 0 |}.

Lemma C3_null_element_in_multibulk_witness :
  parse0_loop 2 collecting_two (("$"%byte :: bs "-1" ++ crlf) ++ wire "PING|") EOF =
  ([data_payload (MultiBulkReply [[]; bs "PING"])], OutOfFuel).
Proof.
  rewrite (C3_null_element_in_multibulk collecting_two (bs "-1") (wire "PING|") (-1) EOF 1
             eq_refl eq_refl eq_refl eq_refl ltac:(lia)).
  vm_compute. reflexivity.
Defined.

(** C10: inside a Multi-Bulk being collected, a [\r\n]-terminated line
    whose first byte is not [$] is taken as the next argument, without its
    [\r\n]; so [*1\r\nPING\r\n] decodes to the Multi-Bulk [PING]. *)
Theorem C10_plain_line_is_argument (st : readState) (c : byte) (l rest : bytes)
  (e : GoError) (fuel : nat)
  (Hr : readingMultiLine st = true) (Hm : msgType st = "*"%byte) (Hb : bulkLen st = 0)
  (Hc : c <> "$"%byte) (Hl : no_LF (c :: l) = true) :
  (parse0_loop (S fuel) st ((c :: l) ++ crlf ++ rest) e =
   let st' := set_args st (args st ++ [c :: l]) in
   if finished st'
   then emit (data_payload (MultiBulkReply (args st'))) (parse0_loop fuel zero_state rest e)
   else parse0_loop fuel st' rest e) /\
  parse0 (wire "*1|PING|") EOF =
    ([data_payload (MultiBulkReply [bs "PING"]); err_payload EOF], ChannelClosed).
Proof.
  split; [|vm_compute; reflexivity].
  pose proof (step_plain_element st c l rest e Hr Hm Hb Hc Hl) as H.
  unfold collected in H. cbv zeta.
  destruct (finished _); rewrite (parse0_loop_continue _ _ _ _ _ _ _ H);
    [reflexivity | apply pair_fst_snd].
Qed.

Lemma C10_plain_line_is_argument_witness :
  parse0_loop 1 collecting_two (bs "GET" ++ crlf ++ []) EOF =
  parse0_loop 0 (set_args collecting_two [bs "GET"]) [] EOF.
Proof.
  destruct (C10_plain_line_is_argument collecting_two "G"%byte (bs "ET") [] EOF 0
              eq_refl eq_refl eq_refl ltac:(discriminate) eq_refl) as [H _].
  exact H.
Defined.

(** * Further properties of the parser, the handler and the server *)

(** ** Single-line replies *)

Lemma trim_crlf_line (l : bytes) : trim_crlf (l ++ crlf) = l.
Proof.
  unfold trim_crlf. rewrite length_app.
  assert (Hc : List.length crlf = 2%nat) by reflexivity. rewrite Hc.
  replace (List.length l + 2 - 2)%nat with (List.length l) by lia.
  replace (2 <=? List.length l + 2)%nat with true by (symmetry; apply Nat.leb_le; lia).
  rewrite skipn_app, skipn_all, Nat.sub_diag.
  change (bytes_eqb ([] ++ skipn 0 crlf) crlf) with true. cbn [andb].
  rewrite firstn_app, Nat.sub_diag, firstn_all. simpl. apply app_nil_r.
Qed.

(** A single line [t :: rest ++ \r\n] read outside any Multi-Bulk. *)
Lemma step_single_line (t : byte) (l rest : bytes) (e : GoError) :
  no_LF (t :: l) = true ->
  t <> "*"%byte -> t <> "$"%byte ->
  parse0_step zero_state ((t :: l) ++ crlf ++ rest) e =
  match parseSingleLineReply ((t :: l) ++ crlf) with
  | Panic => Crash
  | Throw err => Continue (Some {| Data := None; Err := Some err |}) zero_state rest
  | Ret r => Continue (Some {| Data := r; Err := None |}) zero_state rest
  end.
Proof.
  intros Hl H1 H2. unfold parse0_step.
  rewrite readLine_line by (reflexivity || exact Hl).
  cbn [readingMultiLine zero_state negb].
  change ((t :: l) ++ crlf) with (t :: l ++ crlf). rewrite at_0.
  destruct (byte_eqb t "*"%byte) eqn:E1; [apply byte_dec_bl in E1; contradiction|].
  destruct (byte_eqb t "$"%byte) eqn:E2; [apply byte_dec_bl in E2; contradiction|].
  reflexivity.
Qed.

Lemma parseSingleLineReply_line (t : byte) (l : bytes) :
  parseSingleLineReply ((t :: l) ++ crlf) =
  if byte_eqb t "+"%byte then Ret (Some (StatusReply l))
  else if byte_eqb t "-"%byte then Ret (Some (ErrReply l))
  else if byte_eqb t ":"%byte then
    match ParseInt64 l with
    | None => Throw (ProtocolError ((t :: l) ++ crlf))
    | Some v => Ret (Some (IntReply v))
    end
  else Ret None.
Proof.
  unfold parseSingleLineReply. rewrite trim_crlf_line.
  change ((t :: l) ++ crlf) with (t :: l ++ crlf). rewrite at_0, slice_tail.
  reflexivity.
Qed.

(** Status and Error lines: [+<text>\r\n] and [-<text>\r\n] give a Status or
    Error unit carrying [text] (which may hold a CR), and the parser goes on
    from the empty state. *)
Theorem single_line_status_error (text rest : bytes) (e : GoError) (fuel : nat)
  (Ht : no_LF text = true) :
  parse0_loop (S fuel) zero_state (("+"%byte :: text) ++ crlf ++ rest) e =
    emit (data_payload (StatusReply text)) (parse0_loop fuel zero_state rest e) /\
  parse0_loop (S fuel) zero_state (("-"%byte :: text) ++ crlf ++ rest) e =
    emit (data_payload (ErrReply text)) (parse0_loop fuel zero_state rest e).
Proof.
  split.
  - pose proof (step_single_line "+"%byte text rest e (no_LF_cons "+"%byte _ eq_refl Ht)
                  ltac:(discriminate) ltac:(discriminate)) as H.
    rewrite parseSingleLineReply_line in H. cbv [byte_eqb Byte.eqb Bool.eqb andb] in H.
    rewrite (parse0_loop_continue _ _ _ _ _ _ _ H). reflexivity.
  - pose proof (step_single_line "-"%byte text rest e (no_LF_cons "-"%byte _ eq_refl Ht)
                  ltac:(discriminate) ltac:(discriminate)) as H.
    rewrite parseSingleLineReply_line in H. cbv [byte_eqb Byte.eqb Bool.eqb andb] in H.
    rewrite (parse0_loop_continue _ _ _ _ _ _ _ H). reflexivity.
Qed.

Lemma single_line_status_error_witness :
  no_LF (bs "OK") = true /\
  parse0_loop 1 zero_state (("+"%byte :: bs "OK") ++ crlf ++ []) EOF =
    emit (data_payload (StatusReply (bs "OK"))) (parse0_loop 0 zero_state [] EOF).
Proof.
  split; [reflexivity|].
  exact (proj1 (single_line_status_error (bs "OK") [] EOF 0 eq_refl)).
Defined.

(** Integer lines: [:<s>\r\n] gives an Integer unit when [s] is a signed
    64-bit decimal, and otherwise a unit carrying a protocol error; in both
    cases the parser goes on from the empty state. *)
Theorem single_line_integer (s rest : bytes) (e : GoError) (fuel : nat)
  (Hs : no_LF s = true) :
  parse0_loop (S fuel) zero_state ((":"%byte :: s) ++ crlf ++ rest) e =
  emit (match ParseInt64 s with
        | Some v => data_payload (IntReply v)
        | None => err_payload (ProtocolError ((":"%byte :: s) ++ crlf))
        end) (parse0_loop fuel zero_state rest e).
Proof.
  pose proof (step_single_line ":"%byte s rest e (no_LF_cons ":"%byte _ eq_refl Hs)
                ltac:(discriminate) ltac:(discriminate)) as H.
  rewrite parseSingleLineReply_line in H. cbv [byte_eqb Byte.eqb Bool.eqb andb] in H.
  destruct (ParseInt64 s); rewrite (parse0_loop_continue _ _ _ _ _ _ _ H); reflexivity.
Qed.

Lemma single_line_integer_witness :
  no_LF (bs "-42") = true /\
  parse0_loop 1 zero_state ((":"%byte :: bs "-42") ++ crlf ++ []) EOF =
    emit (data_payload (IntReply (-42))) (parse0_loop 0 zero_state [] EOF).
Proof.
  split; [reflexivity|].
  exact (single_line_integer (bs "-42") [] EOF 0 eq_refl).
Defined.

(** A line whose first byte is none of [+ - : * $] gives a unit with
    neither data nor error, and the parser goes on from the empty state. *)
Theorem single_line_unknown_tag (t : byte) (l rest : bytes) (e : GoError) (fuel : nat)
  (Hl : no_LF (t :: l) = true)
  (Ht : ~ In t ["+"%byte; "-"%byte; ":"%byte; "*"%byte; "$"%byte]) :
  parse0_loop (S fuel) zero_state ((t :: l) ++ crlf ++ rest) e =
  emit {| Data := None; Err := None |} (parse0_loop fuel zero_state rest e).
Proof.
  assert (Hne : forall c, In c ["+"%byte; "-"%byte; ":"%byte; "*"%byte; "$"%byte] ->
                          byte_eqb t c = false).
  { intros c Hc. destruct (byte_eqb t c) eqn:E; [|reflexivity].
    apply byte_dec_bl in E. subst. contradiction. }
  pose proof (step_single_line t l rest e Hl
         ltac:(intros ->; apply Ht; simpl; tauto) ltac:(intros ->; apply Ht; simpl; tauto)) as H.
  rewrite parseSingleLineReply_line in H.
  rewrite !Hne in H by (simpl; tauto).
  rewrite (parse0_loop_continue _ _ _ _ _ _ _ H). reflexivity.
Qed.

Lemma single_line_unknown_tag_witness :
  parse0_loop 1 zero_state (("P"%byte :: bs "ING") ++ crlf ++ []) EOF =
  emit {| Data := None; Err := None |} (parse0_loop 0 zero_state [] EOF).
Proof.
  apply (single_line_unknown_tag "P"%byte (bs "ING") [] EOF 0 eq_refl).
  simpl. intros H. repeat (destruct H as [H|H]; [discriminate|]). exact H.
Defined.

(** ** Multi-Bulk messages *)

Lemma step_multibulk_header (s rest : bytes) (e : GoError) :
  no_LF s = true ->
  parse0_step zero_state (("*"%byte :: s ++ crlf) ++ rest) e =
  match ParseUint s 32 with
  | None => Continue (proto_err ("*"%byte :: s ++ crlf)) zero_state rest
  | Some k =>
      if k =? 0 then Continue (Some (data_payload EmptyMultiBulkReply)) zero_state rest
      else Continue None {| readingMultiLine := true; expectedArgsCount := k;
                            msgType := "*"%byte; args := []; bulkLen := 0 |} rest
  end.
Proof.
  intros Hs. unfold parse0_step.
  rewrite header_line_split, readLine_line;
    [| reflexivity | exact (no_LF_cons "*"%byte s eq_refl Hs)].
  cbn [readingMultiLine zero_state negb].
  change ((("*"%byte :: s) ++ crlf)) with ("*"%byte :: s ++ [CR; LF]).
  rewrite at_0. change (byte_eqb "*"%byte "*"%byte) with true. cbv iota.
  unfold parseMultiBulkHeader. rewrite slice_head_drop_2.
  destruct (ParseUint s 32) as [k|]; [|reflexivity].
  destruct (k =? 0) eqn:Ek; [reflexivity|].
  rewrite at_0. cbn [expectedArgsCount]. rewrite Ek. reflexivity.
Qed.

(** A Multi-Bulk header [*<s>\r\n] outside any message: a count that is not
    an unsigned decimal below 2^32 (non-numeric, signed, negative, too large)
    gives a protocol-error unit and the parser resumes from the empty state
    with the next line; a count of 0 gives an Empty-Multi-Bulk unit and
    consumes nothing more; a count [k > 0] starts collecting [k] elements. *)
Theorem multibulk_header (s rest : bytes) (e : GoError) (fuel : nat)
  (Hs : no_LF s = true) :
  parse0_loop (S fuel) zero_state (("*"%byte :: s ++ crlf) ++ rest) e =
  match ParseUint s 32 with
  | None => emit (err_payload (ProtocolError ("*"%byte :: s ++ crlf)))
                 (parse0_loop fuel zero_state rest e)
  | Some 0 => emit (data_payload EmptyMultiBulkReply) (parse0_loop fuel zero_state rest e)
  | Some k => parse0_loop fuel {| readingMultiLine := true; expectedArgsCount := k;
                                  msgType := "*"%byte; args := []; bulkLen := 0 |} rest e
  end.
Proof.
  pose proof (step_multibulk_header s rest e Hs) as H.
  destruct (ParseUint s 32) as [k|];
    [| rewrite (parse0_loop_continue _ _ _ _ _ _ _ H); reflexivity].
  destruct k as [|p|p]; cbn [Z.eqb] in H;
    rewrite (parse0_loop_continue _ _ _ _ _ _ _ H);
    [reflexivity | apply pair_fst_snd | apply pair_fst_snd].
Qed.

Lemma multibulk_header_witness :
  no_LF (bs "-1") = true /\
  parse0_loop 1 zero_state (("*"%byte :: bs "-1" ++ crlf) ++ []) EOF =
    emit (err_payload (ProtocolError ("*"%byte :: bs "-1" ++ crlf)))
         (parse0_loop 0 zero_state [] EOF).
Proof.
  split; [reflexivity|].
  exact (multibulk_header (bs "-1") [] EOF 0 eq_refl).
Defined.

(** An element header [$<n>] with [n > 0] inside an unfinished Multi-Bulk. *)
Lemma step_elem_header (st : readState) (s rest : bytes) (n : Z) (e : GoError) :
  readingMultiLine st = true -> bulkLen st = 0 -> ParseInt64 s = Some n -> 0 < n ->
  finished st = false ->
  parse0_step st (("$"%byte :: s ++ crlf) ++ rest) e = Continue None (set_bulkLen st n) rest.
Proof.
  intros Hr Hb Hs Hn Hf. unfold parse0_step.
  rewrite header_line_split, readLine_line;
    [| exact Hb | exact (no_LF_cons "$"%byte s eq_refl (ParseInt64_no_LF s n Hs))].
  rewrite Hr. cbn [negb].
  unfold readBody. unfold crlf. rewrite slice_drop_2, at_0.
  change (byte_eqb "$"%byte "$"%byte) with true. cbv iota.
  rewrite slice_tail, Hs.
  replace (n <=? 0) with false by (symmetry; apply Z.leb_gt; exact Hn).
  replace (finished (set_bulkLen st n)) with (finished st) by reflexivity.
  rewrite Hf. reflexivity.
Qed.

(** The body of an element inside a Multi-Bulk. *)
Lemma step_elem_body (st : readState) (a rest : bytes) (e : GoError) :
  readingMultiLine st = true -> msgType st = "*"%byte ->
  0 < bulkLen st <= maxAlloc - 2 -> blen a = bulkLen st -> hd_error a <> Some "$"%byte ->
  parse0_step st (a ++ crlf ++ rest) e =
  collected (set_args (set_bulkLen st 0) (args st ++ [a])) rest.
Proof.
  intros Hr Hm Hn Hb Hd. unfold parse0_step.
  unfold crlf. rewrite app_assoc, readLine_block by assumption.
  change (byte_eqb CR CR) with true. change (byte_eqb LF LF) with true. cbv iota.
  cbn [negb readingMultiLine set_bulkLen]. rewrite Hr. cbn [negb].
  unfold readBody. rewrite slice_drop_2.
  destruct a as [|c a']; [unfold blen in Hb; simpl in Hb; lia|].
  rewrite at_0.
  destruct (byte_eqb c "$"%byte) eqn:Ec.
  { apply byte_dec_bl in Ec. subst c. simpl in Hd. congruence. }
  unfold collected. destruct (finished _); [|reflexivity].
  cbn [msgType set_args set_bulkLen]. rewrite Hm. reflexivity.
Qed.

(** An element [$<s>\r\n<a>\r\n] of a Multi-Bulk, given as the pair
    [(s, a)] of its length text and its bytes. *)
Definition elem_bytes (h : bytes * bytes) : bytes :=
  ("$"%byte :: fst h ++ crlf) ++ snd h ++ crlf.

(** The length text of the element reads as its length, the element is not
    empty, and it does not begin with [$]. *)
Definition elem_ok (h : bytes * bytes) : Prop :=
  ParseInt64 (fst h) = Some (blen (snd h)) /\ 0 < blen (snd h) <= maxAlloc - 2 /\
  hd_error (snd h) <> Some "$"%byte.

Definition collecting (k : Z) (done : list bytes) : readState :=
  {| readingMultiLine := true; expectedArgsCount := k; msgType := "*"%byte;
     args := done; bulkLen := 0 |}.

Lemma collect_elems (k : Z) (hs : list (bytes * bytes)) :
  forall (done : list bytes) (rest : bytes) (e : GoError) (fuel : nat),
  hs <> [] -> Forall elem_ok hs ->
  Z.of_nat (List.length done + List.length hs) = k ->
  parse0_loop (2 * List.length hs + fuel) (collecting k done)
              (List.concat (List.map elem_bytes hs) ++ rest) e =
  emit (data_payload (MultiBulkReply (done ++ List.map snd hs)))
       (parse0_loop fuel zero_state rest e).
Proof.
  induction hs as [|[s a] hs IH]; intros done rest e fuel Hne Hok Hk; [congruence|].
  apply Forall_cons_iff in Hok as [[Hs [Hn Hd]] Hok'].
  cbn [List.length List.map List.concat fst snd] in *.
  replace (2 * S (List.length hs) + fuel)%nat with (S (S (2 * List.length hs + fuel))) by lia.
  unfold elem_bytes at 1. cbn [fst snd].
  rewrite <- !app_assoc.
  assert (Hf : finished (collecting k done) = false).
  { unfold finished. cbn [expectedArgsCount args collecting].
    apply andb_false_iff. right. apply Z.eqb_neq. lia. }
  rewrite (parse0_loop_continue _ _ _ _ _ _ _
             (step_elem_header (collecting k done) s _ (blen a) e eq_refl eq_refl Hs
                ltac:(lia) Hf)).
  cbn [cons_opt]. rewrite pair_fst_snd.
  pose proof (step_elem_body (set_bulkLen (collecting k done) (blen a)) a
                (List.concat (List.map elem_bytes hs) ++ rest) e eq_refl eq_refl
                ltac:(cbn [bulkLen set_bulkLen collecting]; lia) eq_refl Hd) as Hb.
  change (set_args (set_bulkLen (set_bulkLen (collecting k done) (blen a)) 0)
            (args (set_bulkLen (collecting k done) (blen a)) ++ [a]))
    with (collecting k (done ++ [a])) in Hb.
  unfold collected in Hb.
  destruct hs as [|h hs'].
  - replace (finished (collecting k (done ++ [a]))) with true in Hb.
    2:{ symmetry. unfold finished. cbn [expectedArgsCount args collecting].
        rewrite length_app. apply andb_true_iff.
        split; [apply Z.ltb_lt | apply Z.eqb_eq]; cbn [List.length] in *; lia. }
    rewrite (parse0_loop_continue _ _ _ _ _ _ _ Hb). reflexivity.
  - replace (finished (collecting k (done ++ [a]))) with false in Hb.
    2:{ symmetry. unfold finished. cbn [expectedArgsCount args collecting].
        apply andb_false_iff. right. apply Z.eqb_neq. rewrite length_app.
        cbn [List.length] in *. lia. }
    rewrite (parse0_loop_continue _ _ _ _ _ _ _ Hb). cbn [cons_opt].
    rewrite pair_fst_snd.
    rewrite IH.
    + rewrite <- app_assoc. reflexivity.
    + discriminate.
    + exact Hok'.
    + rewrite length_app. cbn [List.length] in *. lia.
Qed.

Lemma decode_one (c : bytes) (hs : list (bytes * bytes)) (rest : bytes)
  (e : GoError) (fuel : nat)
  (Hc : ParseUint c 32 = Some (Z.of_nat (List.length hs)))
  (Hne : hs <> []) (Hok : Forall elem_ok hs) :
  parse0_loop (S (2 * List.length hs + fuel)) zero_state
    (("*"%byte :: c ++ crlf) ++ List.concat (List.map elem_bytes hs) ++ rest) e =
  emit (data_payload (MultiBulkReply (List.map snd hs))) (parse0_loop fuel zero_state rest e).
Proof.
  assert (Hl : no_LF c = true) by exact (digits_no_LF c (ParseUint_digits c 32 _ Hc)).
  pose proof (step_multibulk_header c (List.concat (List.map elem_bytes hs) ++ rest) e Hl) as H.
  rewrite Hc in H.
  replace (Z.of_nat (List.length hs) =? 0) with false in H
    by (symmetry; apply Z.eqb_neq; destruct hs; [congruence | cbn [List.length]; lia]).
  rewrite (parse0_loop_continue _ _ _ _ _ _ _ H). cbn [cons_opt]. rewrite pair_fst_snd.
  exact (collect_elems _ hs [] rest e fuel Hne Hok eq_refl).
Qed.

(** Decoding a whole Multi-Bulk message: a header [*<c>\r\n] whose count
    reads as the number of elements, followed by elements
    [$<len>\r\n<bytes>\r\n] whose length texts read as their lengths, which
    are not empty and do not begin with [$], gives exactly one Multi-Bulk
    unit holding the elements' bytes in order, and the parser goes on from
    the empty state with what follows. *)
Theorem multibulk_decode (c : bytes) (hs : list (bytes * bytes)) (rest : bytes)
  (e : GoError) (fuel : nat)
  (Hc : ParseUint c 32 = Some (Z.of_nat (List.length hs)))
  (Hne : hs <> []) (Hok : Forall elem_ok hs) :
  parse0_loop (S (2 * List.length hs + fuel)) zero_state
    (("*"%byte :: c ++ crlf) ++ List.concat (List.map elem_bytes hs) ++ rest) e =
  emit (data_payload (MultiBulkReply (List.map snd hs))) (parse0_loop fuel zero_state rest e).
Proof. exact (decode_one c hs rest e fuel Hc Hne Hok). Qed.

Lemma multibulk_decode_witness :
  parse0_loop 5 zero_state
    (("*"%byte :: bs "2" ++ crlf) ++
     List.concat (List.map elem_bytes [(bs "3", bs "GET"); (bs "2", [x0d; x0a])]) ++ []) EOF =
  emit (data_payload (MultiBulkReply [bs "GET"; [x0d; x0a]])) (parse0_loop 0 zero_state [] EOF).
Proof.
  refine (multibulk_decode (bs "2") [(bs "3", bs "GET"); (bs "2", [x0d; x0a])] [] EOF 0
            eq_refl ltac:(discriminate) _).
  repeat constructor; try discriminate; cbn; lia.
Defined.

(** ** Truncated input and errors in the middle of a message *)

Lemma ReadBytes_LF_none (l : bytes) : no_LF l = true -> ReadBytes_LF l = None.
Proof.
  induction l as [|c l IH]; intros H; [reflexivity|].
  unfold no_LF in H. simpl in H. apply andb_true_iff in H as [Hc Hl].
  simpl. apply negb_true_iff in Hc. rewrite Hc, IH by exact Hl. reflexivity.
Qed.

(** When the stream ends inside a line (no [\n] left) and no bulk body is
    pending, the bytes of that line are dropped, the read error of the
    stream is the last unit, and the channel is closed. *)
Theorem unterminated_line_ends_stream (st : readState) (inp : bytes) (e : GoError)
  (fuel : nat) (Hb : bulkLen st = 0) (Hl : no_LF inp = true) :
  parse0_loop (S fuel) st inp e = ([err_payload e], ChannelClosed).
Proof.
  cbn [parse0_loop]. unfold parse0_step, readLine. rewrite Hb. cbn [Z.eqb].
  rewrite ReadBytes_LF_none by exact Hl. reflexivity.
Qed.

Lemma unterminated_line_ends_stream_witness :
  parse0_loop 1 zero_state (bs "+OK") EOF = ([err_payload EOF], ChannelClosed).
Proof. exact (unterminated_line_ends_stream zero_state (bs "+OK") EOF 0 eq_refl eq_refl). Defined.

(** When the stream ends before a pending bulk body of [n] bytes and its
    [\r\n] are all there, and the buffer of [n + 2] bytes is within the
    runtime's allocation limit (and is assumed to be allocated), the last
    unit is [EOF] if nothing of the body
    arrived, [io.ErrUnexpectedEOF] if part of it did and the stream ended
    with [EOF], and the stream's own error otherwise; the channel is then
    closed. *)
Theorem short_body_ends_stream (st : readState) (inp : bytes) (e : GoError) (fuel : nat)
  (Hn : 0 < bulkLen st <= maxAlloc - 2) (Hl : blen inp < bulkLen st + 2) :
  parse0_loop (S fuel) st inp e =
  ([err_payload (match inp, e with
                 | [], _ => e
                 | _, EOF => ErrUnexpectedEOF
                 | _, _ => e
                 end)], ChannelClosed).
Proof.
  assert (Hm : maxAlloc = 2 ^ 48) by reflexivity.
  cbn [parse0_loop]. unfold parse0_step, readLine.
  replace (bulkLen st =? 0) with false by (symmetry; apply Z.eqb_neq; lia).
  rewrite wrap64_small by lia.
  replace (bulkLen st + 2 <? 0) with false by (symmetry; apply Z.ltb_ge; lia).
  replace (maxAlloc <? bulkLen st + 2) with false by (symmetry; apply Z.ltb_ge; lia).
  cbn [orb].
  unfold ReadFull.
  replace (Z.to_nat (bulkLen st + 2) <=? List.length inp)%nat with false
    by (symmetry; apply Nat.leb_gt; unfold blen in Hl; lia).
  destruct inp; [reflexivity|]. destruct e; reflexivity.
Qed.

Definition bulk_pending (n : Z) : readState :=
  {| readingMultiLine := true; expectedArgsCount := 1; msgType := "$"%byte;
     args := []; bulkLen := n |}.

Lemma short_body_ends_stream_witness :
  parse0_loop 1 (bulk_pending 5) (bs "ab") EOF = ([err_payload ErrUnexpectedEOF], ChannelClosed).
Proof.
  exact (short_body_ends_stream (bulk_pending 5) (bs "ab") EOF 0 ltac:(cbn; lia) ltac:(cbn; lia)).
Defined.

Lemma digits_val_nonneg (s : bytes) :
  forall acc v, 0 <= acc -> digits_val acc s = Some v -> 0 <= v.
Proof.
  induction s as [|c s IH]; intros acc v Ha H.
  - cbn in H. injection H as <-. exact Ha.
  - cbn [digits_val] in H. destruct (is_digit c) eqn:Ec; [|discriminate].
    refine (IH _ _ _ H).
    unfold is_digit in Ec. apply andb_true_iff in Ec as [E1 _].
    apply Nat.leb_le in E1. unfold digit_val. lia.
Qed.

Lemma ParseInt64_le (s : bytes) (n : Z) : ParseInt64 s = Some n -> n <= 2 ^ 63 - 1.
Proof.
  unfold ParseInt64. destruct s as [|c s']; [intros H; discriminate|].
  lazymatch goal with
  | |- (match ?p with (a, b) => _ end) = _ -> _ => destruct p as [neg body]
  end.
  destruct (ParseUint body 64) as [v|] eqn:E; [|intros H; discriminate].
  intros H.
  assert (Hv : 0 <= v).
  { unfold ParseUint in E. destruct body as [|d body]; [discriminate|].
    destruct (digits_val 0 (d :: body)) as [w|] eqn:Ew; [|discriminate].
    destruct (w <? 2 ^ 64); [|discriminate]. injection E as <-.
    exact (digits_val_nonneg _ 0 w ltac:(lia) Ew). }
  destruct neg.
  - destruct (v <=? 2 ^ 63); [|discriminate]. injection H as <-. lia.
  - destruct (v <=? 2 ^ 63 - 1) eqn:Ev; [|discriminate]. injection H as <-.
    apply Z.leb_le in Ev. exact Ev.
Qed.

Lemma readLine_huge (st : readState) (inp : bytes) (e : GoError) :
  maxAlloc - 2 < bulkLen st <= 2 ^ 63 - 1 -> readLine st inp e = LinePanic.
Proof.
  intros Hn. assert (Hm : maxAlloc = 2 ^ 48) by reflexivity.
  unfold readLine.
  replace (bulkLen st =? 0) with false by (symmetry; apply Z.eqb_neq; lia).
  destruct (Z.lt_ge_cases (bulkLen st + 2) (2 ^ 63)) as [Hlt|Hge].
  - rewrite wrap64_small by lia.
    replace (maxAlloc <? bulkLen st + 2) with true by (symmetry; apply Z.ltb_lt; lia).
    rewrite orb_true_r. reflexivity.
  - assert (Hw : wrap64 (bulkLen st + 2) = bulkLen st + 2 - 2 ^ 64).
    { unfold wrap64.
      replace (bulkLen st + 2 + 2 ^ 63) with ((bulkLen st + 2 - 2 ^ 63) + 1 * 2 ^ 64)
        by (change (2 ^ 64) with (2 ^ 63 * 2); lia).
      rewrite Z_mod_plus_full, Z.mod_small
        by (change (2 ^ 64) with (2 ^ 63 * 2); lia).
      change (2 ^ 64) with (2 ^ 63 * 2). lia. }
    rewrite Hw.
    replace (bulkLen st + 2 - 2 ^ 64 <? 0) with true
      by (symmetry; apply Z.ltb_lt; change (2 ^ 64) with (2 ^ 63 * 2); lia).
    reflexivity.
Qed.

(** A Bulk header [$<len>] whose buffer of [len + 2] bytes exceeds the
    runtime's allocation limit (or whose [len + 2] overflows int64) makes
    [make] panic in [readLine], whatever follows: the parser goroutine dies
    after the header, no unit is sent for it, and the channel is never
    closed. *)
Theorem huge_bulk_header_panics (s rest : bytes) (n : Z) (e : GoError) (fuel : nat)
  (Hs : ParseInt64 s = Some n) (Hn : maxAlloc - 2 < n) :
  parse0_loop (S (S fuel)) zero_state (("$"%byte :: s ++ crlf) ++ rest) e = ([], Panicked).
Proof.
  assert (Hm : maxAlloc = 2 ^ 48) by reflexivity.
  pose proof (ParseInt64_le s n Hs) as Hr.
  pose proof (step_bulk_header s rest n e Hs) as H.
  replace (n =? -1) with false in H by (symmetry; apply Z.eqb_neq; lia).
  replace (0 <? n) with true in H by (symmetry; apply Z.ltb_lt; lia).
  rewrite (parse0_loop_continue _ _ _ _ _ _ _ H). cbn [cons_opt].
  cbn [parse0_loop]. unfold parse0_step.
  rewrite readLine_huge by (cbn [bulkLen]; lia). reflexivity.
Qed.

Lemma huge_bulk_header_panics_witness :
  ParseInt64 (bs "1125899906842624") = Some 1125899906842624 /\
  parse0_loop 2 zero_state (("$"%byte :: bs "1125899906842624" ++ crlf) ++ []) EOF = ([], Panicked).
Proof.
  assert (Hs : ParseInt64 (bs "1125899906842624") = Some 1125899906842624) by reflexivity.
  split; [exact Hs|].
  apply (huge_bulk_header_panics (bs "1125899906842624") [] 1125899906842624 EOF 0 Hs).
  unfold maxAlloc; lia.
Defined.

(** A body block not ending in [\r\n] in any state (also in the middle of
    a Multi-Bulk) gives one protocol-error unit; the arguments collected so
    far are dropped and the parser goes on from the empty state right after
    the block. *)
Theorem bad_body_terminator_resets (st : readState) (body rest : bytes) (a b : byte)
  (e : GoError) (fuel : nat)
  (Hn : 0 < bulkLen st <= maxAlloc - 2) (Hb : blen body = bulkLen st) (Hab : a <> CR \/ b <> LF) :
  parse0_loop (S fuel) st (body ++ [a; b] ++ rest) e =
  emit (err_payload (ProtocolError (body ++ [a; b]))) (parse0_loop fuel zero_state rest e).
Proof.
  assert (H : parse0_step st (body ++ [a; b] ++ rest) e =
              Continue (proto_err (body ++ [a; b])) zero_state rest).
  { unfold parse0_step. rewrite app_assoc, readLine_block by assumption.
    destruct (byte_eqb a CR) eqn:Ea; [|reflexivity].
    destruct (byte_eqb b LF) eqn:Eb; [|reflexivity].
    apply byte_dec_bl in Ea, Eb. destruct Hab; contradiction. }
  rewrite (parse0_loop_continue _ _ _ _ _ _ _ H). reflexivity.
Qed.

Lemma bad_body_terminator_resets_witness :
  parse0_loop 1 (set_bulkLen (collecting 2 [bs "GET"]) 1) (bs "k" ++ ["x"; "y"]%byte ++ []) EOF =
  emit (err_payload (ProtocolError (bs "k" ++ ["x"; "y"]%byte))) (parse0_loop 0 zero_state [] EOF).
Proof.
  apply (bad_body_terminator_resets (set_bulkLen (collecting 2 [bs "GET"]) 1) (bs "k") []
           "x"%byte "y"%byte EOF 0); [cbn; lia | reflexivity | left; discriminate].
Defined.

(** Inside a Multi-Bulk, an element header [$<s>] whose length is not a
    signed 64-bit decimal gives one protocol-error unit; the arguments
    collected so far are dropped and the parser goes on from the empty state
    with the next line. *)
Theorem bad_element_header_resets (st : readState) (s rest : bytes) (e : GoError)
  (fuel : nat)
  (Hr : readingMultiLine st = true) (Hb : bulkLen st = 0)
  (Hl : no_LF s = true) (Hs : ParseInt64 s = None) :
  parse0_loop (S fuel) st (("$"%byte :: s ++ crlf) ++ rest) e =
  emit (err_payload (ProtocolError ("$"%byte :: s ++ crlf))) (parse0_loop fuel zero_state rest e).
Proof.
  assert (H : parse0_step st (("$"%byte :: s ++ crlf) ++ rest) e =
              Continue (proto_err ("$"%byte :: s ++ crlf)) zero_state rest).
  { unfold parse0_step.
    rewrite header_line_split, readLine_line;
      [| exact Hb | exact (no_LF_cons "$"%byte s eq_refl Hl)].
    rewrite Hr. cbn [negb].
    unfold readBody. unfold crlf. rewrite slice_drop_2, at_0.
    change (byte_eqb "$"%byte "$"%byte) with true. cbv iota.
    rewrite slice_tail, Hs. reflexivity. }
  rewrite (parse0_loop_continue _ _ _ _ _ _ _ H). reflexivity.
Qed.

Lemma bad_element_header_resets_witness :
  parse0_loop 1 (collecting 2 [bs "GET"]) (("$"%byte :: bs "x" ++ crlf) ++ []) EOF =
  emit (err_payload (ProtocolError ("$"%byte :: bs "x" ++ crlf))) (parse0_loop 0 zero_state [] EOF).
Proof.
  exact (bad_element_header_resets (collecting 2 [bs "GET"]) (bs "x") [] EOF 0
           eq_refl eq_refl eq_refl eq_refl).
Defined.

(** ** The handler: errors, commands and the whole connection *)

Definition closed_text : bytes := bs "use of closed network connection".

Definition reply_event (exec : list bytes -> option Reply) (a : list bytes) : Event :=
  match exec a with
  | Some r => WriteReply r
  | None => WriteRaw unknownErrReplyBytes
  end.

Definition loop_end (en : Ending) : Event :=
  match en with ChannelClosed => Return | _ => BlockedForever end.

Lemma is_prefix_app (p l m : bytes) : is_prefix p l = true -> is_prefix p (l ++ m) = true.
Proof.
  revert l. induction p as [|a p IH]; intros l H; [reflexivity|].
  destruct l as [|b l]; [discriminate|].
  cbn [is_prefix app] in *. apply andb_true_iff in H as [H1 H2].
  rewrite H1, (IH l H2). reflexivity.
Qed.

Lemma contains_app_l (p m sub : bytes) : contains m sub = true -> contains (p ++ m) sub = true.
Proof.
  induction p as [|a p IH]; intros H; [exact H|].
  cbn [app contains]. rewrite (IH H). apply orb_true_r.
Qed.

Lemma contains_app_r (l m sub : bytes) : contains l sub = true -> contains (l ++ m) sub = true.
Proof.
  induction l as [|a l IH]; intros H.
  - cbn [contains] in H. rewrite orb_false_r in H.
    destruct sub; [destruct m; reflexivity | discriminate].
  - cbn [app contains] in *. apply orb_true_iff in H as [H|H].
    + pose proof (is_prefix_app _ (a :: l) m H) as H'. cbn [app] in H'.
      rewrite H'. reflexivity.
    + rewrite (IH H). apply orb_true_r.
Qed.

Lemma handle_commands_prefix exec addr (cmds : list (list bytes)) (ps : list Payload)
  (en : Ending) :
  forall ws, exists ws',
  handle_loop exec addr (List.map (fun a => data_payload (MultiBulkReply a)) cmds ++ ps) en ws =
  List.flat_map (fun a => [Exec a; reply_event exec a]) cmds ++ handle_loop exec addr ps en ws'.
Proof.
  induction cmds as [|a cmds IH]; intros ws; [exists ws; reflexivity|].
  destruct (IH (snd (next_write ws))) as [ws' H].
  exists ws'. cbn [List.map app handle_loop data_payload Err Data List.flat_map].
  rewrite H. unfold reply_event. destruct (exec a); reflexivity.
Qed.

Lemma handle_closed_err exec addr (e : GoError) (ps : list Payload) (en : Ending)
  (ws : list bool) :
  is_conn_closed e = true ->
  handle_loop exec addr (err_payload e :: ps) en ws = closeClient ++ [closed_log addr; Return].
Proof. intros He. cbn [handle_loop err_payload Err]. rewrite He. reflexivity. Qed.

(** The [$<len>] header line read outside a Multi-Bulk, when [len] is not
    a signed 64-bit decimal. *)
Lemma step_bulk_header_unparsable (s rest : bytes) (e : GoError) :
  no_LF s = true -> ParseInt64 s = None ->
  parse0_step zero_state (("$"%byte :: s ++ crlf) ++ rest) e =
  Continue (proto_err ("$"%byte :: s ++ crlf)) zero_state rest.
Proof.
  intros Hl Hs. unfold parse0_step.
  rewrite header_line_split, readLine_line;
    [| reflexivity | exact (no_LF_cons "$"%byte s eq_refl Hl)].
  cbn [readingMultiLine zero_state negb].
  change ((("$"%byte :: s) ++ crlf)) with ("$"%byte :: s ++ [CR; LF]).
  rewrite at_0.
  change (byte_eqb "$"%byte "*"%byte) with false.
  change (byte_eqb "$"%byte "$"%byte) with true. cbv iota.
  unfold parseBulkHeader. rewrite slice_head_drop_2, Hs. reflexivity.
Qed.

(** The handler takes any error whose text contains
    ["use of closed network connection"] for a closed connection, also a
    protocol error, whose text holds the offending line. A client whose
    first line is [$<s>] with such an [s] that is not a length is
    disconnected at once: the connection is closed and removed, and nothing
    it sent afterwards is executed. *)
Theorem closed_text_request_disconnects exec addr (s rest : bytes) (e : GoError)
  (ws : list bool)
  (Hl : no_LF s = true) (Hs : ParseInt64 s = None) (Hc : contains s closed_text = true) :
  Handle exec addr false (fst (parse0 (("$"%byte :: s ++ crlf) ++ rest) e))
                         (snd (parse0 (("$"%byte :: s ++ crlf) ++ rest) e)) ws =
  [Register; StartParser] ++ closeClient ++ [closed_log addr; Return].
Proof.
  pose proof (step_bulk_header_unparsable s rest e Hl Hs) as H.
  unfold parse0.
  set (n := List.length (("$"%byte :: s ++ crlf) ++ rest)).
  replace (2 * n + 2)%nat with (S (2 * n + 1)) by lia.
  rewrite (parse0_loop_continue _ _ _ _ _ _ _ H).
  unfold Handle. cbn [app]. f_equal. f_equal.
  unfold proto_err, cons_opt. apply handle_closed_err.
  unfold is_conn_closed, Error. apply contains_app_l.
  change ("$"%byte :: s ++ crlf) with (["$"%byte] ++ (s ++ crlf)).
  apply contains_app_l, contains_app_r, Hc.
Qed.

Lemma closed_text_request_disconnects_witness :
  Handle (fun _ => None) [] false
    (fst (parse0 (("$"%byte :: closed_text ++ crlf) ++ wire "*1|$4|PING|") EOF))
    (snd (parse0 (("$"%byte :: closed_text ++ crlf) ++ wire "*1|$4|PING|") EOF)) [] =
  [Register; StartParser] ++ closeClient ++ [closed_log [] ; Return].
Proof.
  apply closed_text_request_disconnects; vm_compute; reflexivity.
Defined.

(** For a run of commands (Multi-Bulk units), [Handle] executes each one
    and writes its result, or ["-ERR unknown"] when the engine returns
    nothing, in order; a failed write of a result is ignored. The loop then
    returns if the parser closed the channel, and blocks otherwise. *)
Theorem handle_commands exec addr (cmds : list (list bytes)) (en : Ending) (ws : list bool) :
  handle_loop exec addr (List.map (fun a => data_payload (MultiBulkReply a)) cmds) en ws =
  List.flat_map (fun a => [Exec a; reply_event exec a]) cmds ++ [loop_end en].
Proof.
  destruct (handle_commands_prefix exec addr cmds [] en ws) as [ws' H].
  rewrite app_nil_r in H. rewrite H. destruct en; reflexivity.
Qed.





(** ** A pipeline of well-formed commands, end to end *)

(** A request [*<c>\r\n] followed by its elements. *)
Definition Request : Type := (bytes * list (bytes * bytes))%type.

Definition req_bytes (r : Request) : bytes :=
  ("*"%byte :: fst r ++ crlf) ++ List.concat (List.map elem_bytes (snd r)).

Definition req_args (r : Request) : list bytes := List.map snd (snd r).

Definition req_ok (r : Request) : Prop :=
  ParseUint (fst r) 32 = Some (Z.of_nat (List.length (snd r))) /\ snd r <> [] /\
  Forall elem_ok (snd r).

Definition req_fuel (rs : list Request) : nat :=
  fold_right (fun r acc => S (2 * List.length (snd r)) + acc)%nat 0%nat rs.

Lemma decode_requests (rs : list Request) (rest : bytes) (e : GoError) (fuel : nat) :
  Forall req_ok rs ->
  parse0_loop (req_fuel rs + fuel) zero_state (List.concat (List.map req_bytes rs) ++ rest) e =
  (List.map (fun r => data_payload (MultiBulkReply (req_args r))) rs ++
     fst (parse0_loop fuel zero_state rest e), snd (parse0_loop fuel zero_state rest e)).
Proof.
  induction rs as [|r rs IH]; intros Hok.
  - cbn. destruct (parse0_loop fuel zero_state rest e); reflexivity.
  - apply Forall_cons_iff in Hok as [[Hc [Hne Hel]] Hok].
    change (req_fuel (r :: rs)) with (S (2 * List.length (snd r)) + req_fuel rs)%nat.
    cbn [List.map List.concat].
    replace (S (2 * List.length (snd r)) + req_fuel rs + fuel)%nat
      with (S (2 * List.length (snd r) + (req_fuel rs + fuel))) by lia.
    rewrite <- app_assoc.
    change (req_bytes r) with
      (("*"%byte :: fst r ++ crlf) ++ List.concat (List.map elem_bytes (snd r))).
    rewrite <- app_assoc.
    rewrite (decode_one (fst r) (snd r) _ e _ Hc Hne Hel).
    unfold emit. rewrite (IH Hok). reflexivity.
Qed.

Lemma parse0_loop_more (f : nat) :
  forall st inp e g, snd (parse0_loop f st inp e) <> OutOfFuel -> (f <= g)%nat ->
  parse0_loop g st inp e = parse0_loop f st inp e.
Proof.
  induction f as [|f IH]; intros st inp e g Hf Hg; [cbn in Hf; congruence|].
  destruct g as [|g]; [lia|].
  cbn [parse0_loop] in *. destruct (parse0_step st inp e) as [o st' rest| p |]; try reflexivity.
  destruct (parse0_loop f st' rest e) as [ps en] eqn:E.
  rewrite (IH st' rest e g); [rewrite E; reflexivity | rewrite E; exact Hf | lia].
Qed.

Lemma elem_bytes_length (hs : list (bytes * bytes)) :
  (5 * List.length hs <= List.length (List.concat (List.map elem_bytes hs)))%nat.
Proof.
  induction hs as [|h hs IH]; [cbn; lia|].
  cbn [List.map List.concat]. rewrite length_app.
  change (elem_bytes h) with (("$"%byte :: fst h ++ crlf) ++ snd h ++ crlf).
  rewrite !length_app. cbn [List.length]. rewrite length_app.
  cbn [List.length crlf]. lia.
Qed.

Lemma req_fuel_le (rs : list Request) :
  (req_fuel rs <= List.length (List.concat (List.map req_bytes rs)))%nat.
Proof.
  induction rs as [|r rs IH]; [cbn; lia|].
  change (req_fuel (r :: rs)) with (S (2 * List.length (snd r)) + req_fuel rs)%nat.
  cbn [List.map List.concat]. rewrite length_app.
  change (req_bytes r) with
    (("*"%byte :: fst r ++ crlf) ++ List.concat (List.map elem_bytes (snd r))).
  rewrite !length_app. cbn [List.length]. rewrite length_app.
  pose proof (elem_bytes_length (snd r)). cbn [List.length crlf]. lia.
Qed.

(** A client that sends a run of requests in which each count and length
    is a plain decimal that matches, no request is empty, and every
    argument is non-empty and does not begin with [$] (see C1 and C4 for the
    others), and then closes the connection, has every request executed and
    answered, in order, and is then cleaned up: the connection is closed, the storage engine notified
    and the client removed from [activeConn]. *)
Theorem pipeline_served exec addr (rs : list Request) (ws : list bool)
  (Hok : Forall req_ok rs) :
  Handle exec addr false (fst (parse0 (List.concat (List.map req_bytes rs)) EOF))
                         (snd (parse0 (List.concat (List.map req_bytes rs)) EOF)) ws =
  [Register; StartParser] ++
    List.flat_map (fun a => [Exec a; reply_event exec a]) (List.map req_args rs) ++
    closeClient ++ [closed_log addr; Return].
Proof.
  assert (H : parse0 (List.concat (List.map req_bytes rs)) EOF =
              (List.map (fun r => data_payload (MultiBulkReply (req_args r))) rs ++
                 [err_payload EOF], ChannelClosed)).
  { unfold parse0.
    pose proof (decode_requests rs [] EOF 1 Hok) as D. rewrite app_nil_r in D.
    cbn [parse0_loop parse0_step readLine zero_state bulkLen Z.eqb ReadBytes_LF fst snd] in D.
    rewrite <- D. apply parse0_loop_more.
    - rewrite D. discriminate.
    - pose proof (req_fuel_le rs). lia. }
  rewrite H. cbn [fst snd]. unfold Handle. cbn [app].
  f_equal. f_equal.
  rewrite <- (map_map req_args (fun a => data_payload (MultiBulkReply a))).
  destruct (handle_commands_prefix exec addr (List.map req_args rs) [err_payload EOF]
              ChannelClosed ws) as [ws' Hw].
  rewrite Hw. reflexivity.
Qed.

Definition sample_requests : list Request :=
  [(bs "1", [(bs "4", bs "PING")]); (bs "2", [(bs "4", bs "ECHO"); (bs "2", bs "hi")])].

Lemma pipeline_served_witness :
  Forall req_ok sample_requests /\
  Handle (fun _ => None) [] false (fst (parse0 (List.concat (List.map req_bytes sample_requests)) EOF))
    (snd (parse0 (List.concat (List.map req_bytes sample_requests)) EOF)) [] =
  [Register; StartParser] ++
    List.flat_map (fun a => [Exec a; reply_event (fun _ => None) a]) (List.map req_args sample_requests) ++
    closeClient ++ [closed_log [] ; Return].
Proof.
  assert (H : Forall req_ok sample_requests).
  { unfold sample_requests, req_ok, elem_ok.
    repeat constructor; try discriminate; cbn; lia. }
  split; [exact H | exact (pipeline_served (fun _ => None) [] sample_requests [] H)].
Defined.




(** ** The echo handler *)

Lemma ReadBytes_LF_some (inp msg rest : bytes) :
  ReadBytes_LF inp = Some (msg, rest) ->
  exists l, msg = l ++ [LF] /\ no_LF l = true /\ inp = msg ++ rest.
Proof.
  revert msg rest. induction inp as [|c inp IH]; intros msg rest H; [discriminate|].
  cbn [ReadBytes_LF] in H. destruct (byte_eqb c LF) eqn:Ec.
  - injection H as <- <-. apply byte_dec_bl in Ec. subst c. exists []. auto.
  - destruct (ReadBytes_LF inp) as [[l' r']|] eqn:E; [|discriminate].
    injection H as <- <-. destruct (IH l' r' eq_refl) as (l & -> & Hl & ->).
    exists (c :: l). split; [reflexivity|]. split; [|reflexivity].
    unfold no_LF. cbn [forallb]. rewrite Ec. exact Hl.
Qed.

Lemma ReadBytes_LF_none_inv (inp : bytes) : ReadBytes_LF inp = None -> no_LF inp = true.
Proof.
  induction inp as [|c inp IH]; intros H; [reflexivity|].
  cbn [ReadBytes_LF] in H. destruct (byte_eqb c LF) eqn:Ec; [discriminate|].
  destruct (ReadBytes_LF inp) as [[]|]; [discriminate|].
  unfold no_LF. cbn [forallb]. rewrite Ec. exact (IH eq_refl).
Qed.

Definition echo_end (e : GoError) : list EchoEvent :=
  match e with
  | EOF => [ELogClosed; EDelete; EReturn]
  | _ => [EWarn e; EReturn]
  end.

Definition echo_line (l : bytes) : list EchoEvent := [EWaitAdd; EWrite (l ++ [LF]); EWaitDone].

Lemma echo_loop_lines (e : GoError) (n : nat) :
  forall inp, (List.length inp < n)%nat ->
  exists lines tail,
    echo_loop n inp e = List.flat_map echo_line lines ++ echo_end e /\
    Forall (fun l => no_LF l = true) lines /\ no_LF tail = true /\
    List.concat (List.map (fun l => l ++ [LF]) lines) ++ tail = inp.
Proof.
  induction n as [|n IH]; intros inp Hn; [lia|].
  cbn [echo_loop]. destruct (ReadBytes_LF inp) as [[msg rest]|] eqn:E.
  - destruct (ReadBytes_LF_some inp msg rest E) as (l & -> & Hl & ->).
    rewrite length_app, length_app in Hn. cbn [List.length] in Hn.
    destruct (IH rest ltac:(lia)) as (lines & tail & H1 & H2 & H3 & H4).
    exists (l :: lines), tail. rewrite H1. split; [reflexivity|].
    split; [constructor; assumption|]. split; [exact H3|].
    cbn [List.map List.concat]. rewrite <- app_assoc, H4. reflexivity.
  - exists [], inp. split; [destruct e; reflexivity|].
    split; [constructor|]. split; [exact (ReadBytes_LF_none_inv inp E) | reflexivity].
Qed.

(** The echo handler writes back each complete line of the input, [\n]
    included, one write per line and in order, each write between
    [Waiting.Add(1)] and [Waiting.Done()]; the bytes after the last [\n]
    are never echoed. At the end of the stream it removes the client from
    [activeConn] when the error is [io.EOF], and for any other read error
    only logs it, leaving the client registered. With the closing flag set
    it closes the connection first but still registers and serves it. *)
Theorem echo_handle_lines (closing : bool) (inp : bytes) (e : GoError) :
  exists lines tail,
    EchoHandle closing inp e =
      (if closing then [EConnClose] else []) ++
      EStore :: List.flat_map echo_line lines ++ echo_end e /\
    Forall (fun l => no_LF l = true) lines /\ no_LF tail = true /\
    List.concat (List.map (fun l => l ++ [LF]) lines) ++ tail = inp.
Proof.
  destruct (echo_loop_lines e (S (List.length inp)) inp ltac:(lia))
    as (lines & tail & H1 & H2 & H3 & H4).
  exists lines, tail. unfold EchoHandle. rewrite H1. auto.
Qed.

(** The echo handler removes the client from [activeConn] exactly when
    the read error that ends the connection is [io.EOF]. *)
Theorem echo_deregisters_iff_eof (closing : bool) (inp : bytes) (e : GoError) :
  In EDelete (EchoHandle closing inp e) <-> e = EOF.
Proof.
  destruct (echo_handle_lines closing inp e) as (lines & tail & H & _).
  rewrite H. clear H.
  assert (Hl : ~ In EDelete (List.flat_map echo_line lines)).
  { intros Hin. apply in_flat_map in Hin as (l & _ & Hin).
    unfold echo_line in Hin. destruct Hin as [H|[H|[H|[]]]]; discriminate. }
  split.
  - intros Hin. apply in_app_or in Hin as [Hin|Hin];
      [destruct closing; cbn in Hin; [destruct Hin as [H|[]]; discriminate | contradiction]|].
    destruct Hin as [H|Hin]; [discriminate|].
    apply in_app_or in Hin as [Hin|Hin]; [contradiction|].
    destruct e; cbn in Hin; try reflexivity;
      destruct Hin as [H|[H|[]]]; discriminate.
  - intros ->. apply in_or_app. right. right. apply in_or_app. right. cbn. auto.
Qed.

(** ** The server *)

Lemma srv_steps_trans (a b c : Server) : srv_steps a b -> srv_steps b c -> srv_steps a c.
Proof.
  unfold srv_steps. intros H. induction H as [|x y z Hxy Hyz IH]; intros Hc; auto.
  eapply rt1n_trans; [exact Hxy | exact (IH Hc)].
Qed.

Lemma no_running_nth (l : list TaskStatus) (i : nat) :
  count_running l = 0%nat -> nth_error l i <> Some Running.
Proof.
  intros H Hn. apply count_running_zero in H. apply nth_error_In in Hn.
  rewrite Forall_forall in H. discriminate (H _ Hn).
Qed.

Lemma srv_step_returned (s s' : Server) :
  srv_step s s' -> waitDone s = count_running (tasks s) ->
  (returned s = true -> accepting s = false /\ waitDone s = 0%nat) ->
  returned s' = true -> accepting s' = false /\ waitDone s' = 0%nat.
Proof.
  intros Hs Hw Hr Hr'. inversion Hs; subst; cbn in *; try (split; reflexivity).
  all: destruct (Hr Hr') as [Ha Hz]; try congruence.
  all: split; [congruence | lia].
Qed.

Lemma srv_reachable_returned (s : Server) :
  srv_reachable s -> returned s = true -> accepting s = false /\ waitDone s = 0%nat.
Proof.
  unfold srv_reachable, srv_steps.
  assert (Gen : forall a b, clos_refl_trans_1n Server srv_step a b ->
                  waitDone a = count_running (tasks a) ->
                  (returned a = true -> accepting a = false /\ waitDone a = 0%nat) ->
                  returned b = true -> accepting b = false /\ waitDone b = 0%nat).
  { intros a b Hab. induction Hab as [|x y z Hxy Hyz IH]; intros Hw Hr; auto.
    apply IH; [eapply srv_step_counter; eauto | eapply srv_step_returned; eauto]. }
  intros H. apply (Gen srv_init); [exact H | reflexivity | discriminate].
Qed.

Definition srv_returned_example : Server :=
  {| lopen := false; notified := false; sup_closed := false; accepting := false;
     tasks := []; waitDone := 0%nat; returned := true |}.

(** [ListenAndServe] also returns when [listener.Accept()] fails before
    any shutdown notification: the supervisor goroutine has then neither
    received from [closeChan] nor closed the handler. *)
Theorem returns_without_shutdown :
  exists s, srv_reachable s /\ returned s = true /\ notified s = false /\ sup_closed s = false.
Proof.
  exists srv_returned_example. split; [|split; [|split]]; [| reflexivity | reflexivity | reflexivity].
  unfold srv_reachable, srv_steps.
  eapply rt1n_trans; [apply (step_accept_err srv_init); reflexivity|].
  eapply rt1n_trans; [apply step_return; reflexivity|].
  apply rt1n_refl.
Qed.

(** Once [ListenAndServe] has returned, no connection is accepted and no
    task runs any more: the accept loop is over, the WaitGroup counter is
    zero, every task is done, and the list of tasks stays as it is. *)
Theorem after_return_nothing_runs (s s' : Server) (Hr : srv_reachable s)
  (Hret : returned s = true) (Hs : srv_steps s s') :
  tasks s' = tasks s /\ accepting s' = false /\ waitDone s' = 0%nat /\
  Forall (fun t => t = Done) (tasks s').
Proof.
  assert (Hsr : srv_reachable s').
  { unfold srv_reachable in *. exact (srv_steps_trans _ _ _ Hr Hs). }
  assert (Hret' : returned s' = true).
  { clear Hr Hsr. induction Hs as [|x y z Hxy Hyz IH]; [exact Hret|].
    apply IH. inversion Hxy; subst; cbn in *; congruence. }
  destruct (srv_reachable_returned s' Hsr Hret') as [Ha Hw].
  pose proof (srv_reachable_counter s' Hsr) as Hc.
  split; [|split; [exact Ha|split; [exact Hw|apply count_running_zero; congruence]]].
  destruct (srv_reachable_returned s Hr Hret) as [Ha0 Hw0].
  pose proof (srv_reachable_counter s Hr) as Hc0.
  clear Hsr Hret' Ha Hw Hc.
  induction Hs as [|x y z Hxy Hyz IH]; [reflexivity|].
  assert (Hy : returned y = true /\ accepting y = false /\ waitDone y = 0%nat /\
               waitDone y = count_running (tasks y) /\ tasks y = tasks x).
  { inversion Hxy; subst; cbn [tasks waitDone accepting returned] in *;
      try congruence; try (repeat split; congruence).
    rewrite Hw0 in Hc0. exfalso. eapply no_running_nth; [symmetry; exact Hc0 | eassumption]. }
  destruct Hy as (Hy1 & Hy2 & Hy3 & Hy4 & Hy5).
  rewrite <- Hy5. apply IH; auto.
  unfold srv_reachable in *. apply (srv_steps_trans _ _ _ Hr).
  eapply rt1n_trans; [exact Hxy | apply rt1n_refl].
Qed.

(** A server that served one connection and returned after an [Accept]
    error, and the state after the supervisor later closed the listener. *)
Definition srv_served_returned : Server :=
  {| lopen := false; notified := false; sup_closed := false; accepting := false;
     tasks := [Done]; waitDone := 0%nat; returned := true |}.

Definition srv_served_later : Server :=
  {| lopen := false; notified := true; sup_closed := true; accepting := false;
     tasks := [Done]; waitDone := 0%nat; returned := true |}.

Lemma after_return_nothing_runs_witness :
  srv_reachable srv_served_returned /\ returned srv_served_returned = true /\
  srv_steps srv_served_returned srv_served_later /\
  (tasks srv_served_later = tasks srv_served_returned /\ accepting srv_served_later = false /\
   waitDone srv_served_later = 0%nat /\ Forall (fun t => t = Done) (tasks srv_served_later)).
Proof.
  assert (Hr : srv_reachable srv_served_returned).
  { unfold srv_reachable, srv_steps.
    eapply rt1n_trans; [apply (step_accept srv_init); reflexivity|].
    eapply rt1n_trans; [apply (step_task_done _ 0); reflexivity|].
    eapply rt1n_trans; [apply step_accept_err; reflexivity|].
    eapply rt1n_trans; [apply step_return; reflexivity|].
    apply rt1n_refl. }
  assert (Hs : srv_steps srv_served_returned srv_served_later).
  { unfold srv_steps.
    eapply rt1n_trans; [apply step_notify; reflexivity|].
    eapply rt1n_trans; [apply step_sup_close; reflexivity|].
    apply rt1n_refl. }
  split; [exact Hr|split; [reflexivity|split; [exact Hs|]]].
  exact (after_return_nothing_runs srv_served_returned srv_served_later Hr eq_refl Hs).
Defined.
